(** * Telethon's TLObject code generator (telethon_generator/tl_generator.py)

    The generator turns parsed schema definitions into Python classes.  The
    development below embeds

    - the definition model the generator consumes ([TLArg.t], [TLObject.t]);
    - the generator's methods, which here build the abstract syntax of the
      Python fragments that the source writes as text through its
      [SourceBuilder]: [_write_self_assigns], [write_get_input],
      [write_to_bytes], [write_read_code], [write_request_result_code],
      [_write_source_code], [_write_init_py], [clean_tlobjects],
      [generate_tlobjects];
    - the meaning of those fragments when the generated module runs
      (attribute lookups, [struct.pack], [int.to_bytes], the reader
      primitives, [assert], conditional expressions and loops).

    Each constructor of the syntax carries, in its comment, the exact text the
    source emits for it. *)

From Stdlib Require Import ZArith Ascii String List Lia.
From Stdlib.Strings Require Import Byte.
From stdpp Require Import gmap strings list fin_maps.

Set Warnings "-register-all".

Open Scope string_scope.
Open Scope list_scope.
Open Scope Z_scope.

(** ** The definition model (produced by the parser) *)

Module TLArg.
Record t := mk {
  name : string;
  type : string;
  is_vector : bool;
  use_vector_id : bool;
  is_flag : bool;
  flag_index : Z;
  flag_indicator : bool;
  generic_definition : bool;
  can_be_inferred : bool;
  skip_constructor_id : bool
}.
End TLArg.

Module TLObject.
Record t := mk {
  id : Z;
  name : string;
  namespace : string;
  is_function : bool;
  result : string;
  args : list TLArg.t
}.
End TLObject.

(** ** Python values, exceptions and the outcome of a computation *)

Definition bytes := list byte.

Inductive pyval :=
| PNone
| PBool (b : bool)
| PInt (z : Z)
| PFloat (bits : Z)                 (* a double, by its IEEE-754 bit pattern *)
| PStr (s : string)
| PBytes (bs : bytes)
| PDatetime (stamp : Z)
| PList (l : list pyval)
| PObj (cls : string) (attrs : list (string * pyval)).

(** What a raised exception carries when the generator names a culprit. *)
Inductive culprit :=
| AboutObject (t : TLObject.t)
| AboutArg (a : TLArg.t).

Inductive exn :=
| AssertionError (msg : string)
| AttributeError (attr : string)
| BufferError
| NameError (var : string)
| OSError
| OverflowError
| StopIteration
| StructError
| SyntaxError
| TypeError
| UnicodeEncodeError
| ValueError (msg : string) (about : option culprit)
| RuntimeFault (msg : string).

Inductive outcome (A : Type) :=
| Ret (a : A)
| Raise (e : exn).
Arguments Ret {A} a.
Arguments Raise {A} e.

#[global] Instance outcome_ret : MRet outcome := @Ret.
#[global] Instance outcome_bind : MBind outcome := λ A B k m,
  match m with
  | Ret a => k a
  | Raise e => Raise e
  end.

(** [x is None or x is False]: identity tests, so [0] and [[]] are not absent. *)
Definition is_absent (v : pyval) : bool :=
  match v with
  | PNone => true
  | PBool false => true
  | _ => false
  end.

(** Python truth value.  Generated TLObjects define neither [__bool__] nor
    [__len__], so an object is truthy. *)
Definition truthy (v : pyval) : bool :=
  match v with
  | PNone => false
  | PBool b => b
  | PInt z => negb (z =? 0)
  | PFloat bits => negb (bits mod 2 ^ 63 =? 0)
  | PStr s => negb (String.length s =? 0)%nat
  | PBytes bs => negb (length bs =? 0)%nat
  | PDatetime _ => true
  | PList l => negb (length l =? 0)%nat
  | PObj _ _ => true
  end.

(** ** Bytes and fixed-width integers *)

Definition byte_of_Z (z : Z) : byte :=
  default x00 (Byte.of_N (Z.to_N (z mod 256))).

Definition Z_of_byte (b : byte) : Z := Z.of_N (Byte.to_N b).

(** The [n] low bytes of [z] in two's complement, least significant first. *)
Fixpoint le_bytes (n : nat) (z : Z) : bytes :=
  match n with
  | O => []
  | S n' => byte_of_Z z :: le_bytes n' (z / 256)
  end.

Fixpoint le_unsigned (bs : bytes) : Z :=
  match bs with
  | [] => 0
  | b :: bs' => Z_of_byte b + 256 * le_unsigned bs'
  end.

Definition le_signed (bs : bytes) : Z :=
  let u := le_unsigned bs in
  let w := 8 * Z.of_nat (length bs) in
  if u <? 2 ^ (w - 1) then u else u - 2 ^ w.

(** An argument that [struct.pack] accepts for an integer format: [int] and
    its subclass [bool]. *)
Definition as_int (v : pyval) : option Z :=
  match v with
  | PInt z => Some z
  | PBool b => Some (if b then 1 else 0)
  | _ => None
  end.

(** [struct.pack('<i', v)], [struct.pack('<q', v)]: signed, [n] bytes. *)
Definition pack_signed (n : nat) (v : pyval) : outcome bytes :=
  match as_int v with
  | Some z =>
      let half := 2 ^ (8 * Z.of_nat n - 1) in
      if (- half <=? z) && (z <? half) then Ret (le_bytes n z)
      else Raise StructError
  | None => Raise StructError
  end.

(** [struct.pack('<I', z)] on an integer the generated code computed. *)
Definition pack_unsigned (n : nat) (z : Z) : outcome bytes :=
  if (0 <=? z) && (z <? 2 ^ (8 * Z.of_nat n)) then Ret (le_bytes n z)
  else Raise StructError.

(** [v.to_bytes(n, 'little', signed=True)]: only integers have the method. *)
Definition to_bytes_signed (n : nat) (v : pyval) : outcome bytes :=
  match as_int v with
  | Some z =>
      let half := 2 ^ (8 * Z.of_nat n - 1) in
      if (- half <=? z) && (z <? half) then Ret (le_bytes n z)
      else Raise OverflowError
  | None => Raise (AttributeError "to_bytes")
  end.

(** [len(v)] *)
Definition py_len (v : pyval) : outcome Z :=
  match v with
  | PList l => Ret (Z.of_nat (length l))
  | PStr s => Ret (Z.of_nat (String.length s))
  | PBytes bs => Ret (Z.of_nat (length bs))
  | _ => Raise TypeError
  end.

(** [for x in v]: the elements the loop variable takes. *)
Definition py_iter (v : pyval) : outcome (list pyval) :=
  match v with
  | PList l => Ret l
  | PBytes bs => Ret (map (fun b => PInt (Z_of_byte b)) bs)
  | PStr s =>
      Ret (map (fun c => PStr (String c EmptyString)) (list_ascii_of_string s))
  | _ => Raise TypeError
  end.

(** ** The binary reader

    Modelled from the spec: the runtime reader primitives are not part of the
    generator; the wire formats are the ones the generated encoder produces
    (4-byte and 8-byte little-endian integers, 16/32 raw bytes for the
    128/256-bit integers, the two Bool markers).  A reader is the part of
    the stream that is still unread. *)

Definition reader := bytes.

Definition read (n : nat) (r : reader) : outcome (bytes * reader) :=
  if (n <=? length r)%nat then Ret (take n r, drop n r) else Raise BufferError.

Definition read_signed (n : nat) (r : reader) : outcome (pyval * reader) :=
  '(bs, r') ← read n r ; Ret (PInt (le_signed bs), r').

Definition read_int : reader → outcome (pyval * reader) := read_signed 4.
Definition read_long : reader → outcome (pyval * reader) := read_signed 8.
Definition read_large_int (bits : nat) : reader → outcome (pyval * reader) :=
  read_signed (bits / 8).

Definition tgread_bool (r : reader) : outcome (pyval * reader) :=
  '(bs, r') ← read 4 r ;
  let u := le_unsigned bs in
  if u =? 0x997275b5 then Ret (PBool true, r')
  else if u =? 0xbc799737 then Ret (PBool false, r')
  else Raise (RuntimeFault "Invalid boolean code").

(** The collaborators whose code lies outside the generator: the remaining
    runtime primitives the generated module calls, and the parser's naming
    helpers the generator calls. *)
Record runtime := {
  serialize_bytes : pyval → outcome bytes;    (* TLObject.serialize_bytes(v) *)
  pack_double : pyval → outcome bytes;        (* struct.pack('<d', v) *)
  timestamp : pyval → outcome Z;              (* int(v.timestamp()) *)
  object_bytes : pyval → outcome bytes;       (* bytes(v) *)
  read_double : reader → outcome (pyval * reader);
  tgread_string : reader → outcome (pyval * reader);
  tgread_bytes : reader → outcome (pyval * reader);
  tgread_date : reader → outcome (pyval * reader);
  tgread_object : reader → outcome (pyval * reader);
  tgread_vector : reader → outcome (pyval * reader);
  (* from NS import CLS; CLS.from_reader(reader) *)
  from_reader_of : string → string → reader → outcome (pyval * reader);
  (* get_input_peer(v), get_input_channel(v), ...: by function name *)
  get_input : string → pyval → outcome pyval
}.

Record parser := {
  class_name : TLObject.t → string;           (* tlobject.class_name() *)
  class_name_for : string → string;           (* TLObject.class_name_for(t) *)
  sorted_args : TLObject.t → list TLArg.t;    (* tlobject.sorted_args() *)
  find_layer : Z                              (* TLParser.find_layer(scheme) *)
}.

(** [os.urandom]: the entropy still to be drawn, as a stream. *)
Definition entropy := nat → byte.

Definition urandom (n : nat) (s : entropy) : bytes * entropy :=
  (map s (seq 0 n), fun i => s (n + i)%nat).

(** [int.from_bytes(bs, 'big', signed=True)] *)
Definition int_from_bytes_big_signed (bs : bytes) : Z := le_signed (rev bs).

(** ** Syntax of the generated code *)

(** A name the generated code refers to: ['self.{}'.format(arg.name)] or a
    local variable (['x'], ['_x'], ['flags'], ['_' + arg.name], a
    parameter of [__init__]). *)
Inductive ref :=
| Self (attr : string)
| Local (var : string).

(** Expressions of [__bytes__], each evaluating to a bytes object. *)
Inductive bexpr :=
| BNothing                           (* (no text written) *)
| BLit (bs : bytes)                  (* b'...' *)
| BPackLen (n : ref)                 (* struct.pack('<i', len(N)) *)
| BJoinFor (body : bexpr) (n : ref)  (* b''.join(BODY for x in N) *)
| BJoin (items : list bexpr)         (* b''.join((ITEM,ITEM,...)) *)
| BIfPresent (n : ref) (body : bexpr)
    (* b'' if N is None or N is False else (BODY), or ... else BODY when
       BODY is a b''.join((...)) *)
| BFlags (terms : list (ref * Z))
    (* struct.pack('<I', (0 if F is None or F is False else K) | ...) *)
| BPackInt (n : ref)                 (* struct.pack('<i', N) *)
| BPackLong (n : ref)                (* struct.pack('<q', N) *)
| BToBytes (k : nat) (n : ref)       (* N.to_bytes(K, 'little', signed=True) *)
| BPackDouble (n : ref)              (* struct.pack('<d', N) *)
| BSerializeBytes (n : ref)          (* TLObject.serialize_bytes(N) *)
| BBoolMarker (n : ref)              (* b'\xb5ur\x99' if N else b'7\x97y\xbc' *)
| BDate (n : ref)
    (* b'\0\0\0\0' if N is None else struct.pack('<I', int(N.timestamp())) *)
| BBytesOf (n : ref).                (* bytes(N) *)

(** Right-hand sides of the statements of [from_reader] and [on_response]. *)
Inductive rexpr :=
| RReadInt                           (* reader.read_int() *)
| RReadLong                          (* reader.read_long() *)
| RReadLargeInt (bits : nat)         (* reader.read_large_int(bits=BITS) *)
| RReadDouble                        (* reader.read_double() *)
| RTgreadString                      (* reader.tgread_string() *)
| RTgreadBool                        (* reader.tgread_bool() *)
| RTrue                              (* True *)
| RNone                              (* None *)
| REmptyList                         (* [] *)
| RTgreadBytes                       (* reader.tgread_bytes() *)
| RTgreadDate                        (* reader.tgread_date() *)
| RTgreadObject                      (* reader.tgread_object() *)
| RTgreadVector                      (* reader.tgread_vector() *)
| RFromReader (ns cls : string)      (* CLS.from_reader(reader), after
                                        from NS import CLS *)
| RFlagBit (k : Z)                   (* bool(flags & K) *)
| RListOf (e : rexpr) (count : string). (* [E for _ in range(COUNT)] *)

Inductive stmt :=
| SAssign (var : string) (e : rexpr)       (* VAR = E *)
| SExpr (e : rexpr)                        (* E *)
| SIfFlags (k : Z) (body orelse : list stmt)
    (* if flags & K: BODY else: ORELSE *)
| SForRange (count : rexpr) (body : list stmt)
    (* for _ in range(COUNT): BODY *)
| SAppend (var elem : string)              (* VAR.append(ELEM) *)
| SSetResult (e : rexpr).                  (* self.result = E *)

(** Statements of [__init__] that set the fields. *)
Inductive init_stmt :=
| IStore (n : string)                      (* self.N = N *)
| IRandomId (nbytes : nat) (as_list : bool)
    (* self.random_id = random_id if random_id is not None else
         int.from_bytes(os.urandom(NBYTES), 'big', signed=True)
       or, as a list,
         [int.from_bytes(...) for _ in range(len(id))] *)
| IGetInput (fn n : string) (vector flag : bool).
    (* self.N = FN(N)                         or, for a vector,
       self.N = [FN(_x) for _x in N]          each followed, for a flag,
       by:  if N else None *)

(** One generated class: what [_write_source_code] writes for a definition.
    ([to_dict], the docstring, [__str__] and [stringify] are not embedded.) *)
Record assert_stmt := {
  (* assert (self.A and self.B ...) or (not self.A and not self.B ...), MSG *)
  assert_names : list string;
  assert_msg : string
}.

Record py_class := {
  class_line : string;
  constructor_id_line : string;
  subclass_of_id_line : string;
  init_params : list (string * bool);        (* name, and whether "=None" *)
  init_sets_result : bool;                   (* self.result = None, ... *)
  init_body : list init_stmt;
  bytes_asserts : list assert_stmt;
  bytes_items : list bexpr;                  (* return b''.join((ITEMS)) *)
  from_reader_body : list stmt;
  from_reader_kwargs : list string;          (* return CLS(N=_N, ...) *)
  on_response : option (list stmt)
}.

(** ** Python built-ins the generator itself calls *)

Definition hex_digit (d : Z) : ascii :=
  nth (Z.to_nat d) (list_ascii_of_string "0123456789abcdef") "0"%char.

Fixpoint hex_digits (fuel : nat) (n : Z) (acc : string) : string :=
  let acc' := String (hex_digit (n mod 16)) acc in
  match fuel with
  | O => acc'
  | S fuel' => if n / 16 =? 0 then acc' else hex_digits fuel' (n / 16) acc'
  end.

(** [hex(z)] *)
Definition hex (z : Z) : string :=
  let digits n := hex_digits (Z.to_nat (Z.log2 n)) n "" in
  if z <? 0 then "-0x" +:+ digits (- z) else "0x" +:+ digits z.

(** [s.zfill(width)] for a string without a sign. *)
Definition zfill (width : nat) (s : string) : string :=
  string_of_list_ascii (replicate (width - String.length s) "0"%char) +:+ s.

(** [s[n:]] *)
Definition string_from (n : nat) (s : string) : string :=
  string_of_list_ascii (drop n (list_ascii_of_string s)).

(** [s.encode('ascii')] *)
Definition encode_ascii (s : string) : outcome bytes :=
  mapM (fun c : ascii =>
          if (nat_of_ascii c <? 128)%nat then Ret (byte_of_ascii c)
          else Raise UnicodeEncodeError)
       (list_ascii_of_string s).

(** [zlib.crc32]: the reflected CRC-32 with polynomial [0xEDB88320]. *)
Definition crc32_shift (crc : Z) : Z :=
  if Z.testbit crc 0 then Z.lxor (Z.shiftr crc 1) 0xEDB88320
  else Z.shiftr crc 1.

Definition crc32_update (crc : Z) (b : byte) : Z :=
  Nat.iter 8 crc32_shift (Z.lxor crc (Z_of_byte b)).

Definition crc32 (bs : bytes) : Z :=
  Z.lxor (fold_left crc32_update bs 0xFFFFFFFF) 0xFFFFFFFF.

(** [struct.pack('<I', z)] at generation time. *)
Definition struct_pack_I (z : Z) : outcome bytes := pack_unsigned 4 z.

(** [1 << i] *)
Definition shl1 (i : Z) : outcome Z :=
  if i <? 0 then Raise (ValueError "negative shift count" None)
  else Ret (Z.shiftl 1 i).

(** [', '.join(l)] and the like *)
Fixpoint join (sep : string) (l : list string) : string :=
  match l with
  | [] => ""
  | [s] => s
  | s :: l' => s +:+ sep +:+ join sep l'
  end.

(** ** The generator *)

Section Generator.
Variable p : parser.

Import TLArg.

(** The argument as the recursive call for one element of a vector sees it:
    [arg.is_vector = arg.is_flag = False]. *)
Definition as_element (arg : TLArg.t) : TLArg.t :=
  mk (name arg) (type arg) false (use_vector_id arg) false (flag_index arg)
     (flag_indicator arg) (generic_definition arg) (can_be_inferred arg)
     (skip_constructor_id arg).

(** [write_to_bytes] from [elif arg.flag_indicator:] on, which is all of it
    for an argument that is neither a generic definition, a flag nor a
    vector. *)
Definition write_to_bytes_value (arg : TLArg.t) (args : list TLArg.t)
    (name : ref) : outcome bexpr :=
  if flag_indicator arg then
    if negb (existsb is_flag args) then Ret (BLit [x00; x00; x00; x00])
    else
      terms ← mapM (fun flag => k ← shl1 (flag_index flag);
                                Ret (Self (TLArg.name flag), k))
                   (List.filter is_flag args);
      Ret (BFlags terms)
  else if (type arg =? "int")%string then Ret (BPackInt name)
  else if (type arg =? "long")%string then Ret (BPackLong name)
  else if (type arg =? "int128")%string then Ret (BToBytes 16 name)
  else if (type arg =? "int256")%string then Ret (BToBytes 32 name)
  else if (type arg =? "double")%string then Ret (BPackDouble name)
  else if (type arg =? "string")%string then Ret (BSerializeBytes name)
  else if (type arg =? "Bool")%string then Ret (BBoolMarker name)
  else if (type arg =? "true")%string then Ret BNothing
  else if (type arg =? "bytes")%string then Ret (BSerializeBytes name)
  else if (type arg =? "date")%string then Ret (BDate name)
  else Ret (BBytesOf name).

Definition vector_tag : bytes := [x15; xc4; xb5; x1c].

(** [write_to_bytes(builder, arg, args, name)], for the argument at
    position [i] of [args]: the argument is an object shared with [args],
    so the recursive call sees its cleared markers through [args] too.
    [Ret None] is the bare [return] (nothing written); [Ret (Some items)]
    is [return True] after writing [items], which the caller follows by a
    comma. *)
Definition write_to_bytes (arg : TLArg.t) (i : nat) (args : list TLArg.t)
    (name : option ref) : outcome (option (list bexpr)) :=
  if generic_definition arg then Ret None
  else
    let name := default (Self (TLArg.name arg)) name in
    if is_flag arg && (type arg =? "true")%string then Ret None
    else
      body ← (if is_vector arg then
                elem ← write_to_bytes_value (as_element arg)
                          (<[i := as_element arg]> args) (Local "x");
                Ret ((if use_vector_id arg then [BLit vector_tag] else [])
                       ++ [BPackLen name; BJoinFor elem name])%list
              else
                e ← write_to_bytes_value arg args name; Ret [e]);
      Ret (Some (if is_flag arg then
                   [BIfPresent name
                      (if is_vector arg then BJoin body
                       else default BNothing (head body))]
                 else body)).

(** [arg.type.find('.')] and the two slices around it. *)
Fixpoint split_at_dot (s : string) : option (string * string) :=
  match s with
  | EmptyString => None
  | String c s' =>
      if (c =? ".")%char then Some ("", s')
      else match split_at_dot s' with
           | Some (a, b) => Some (String c a, b)
           | None => None
           end
  end.

(** [write_read_code] from [elif arg.flag_indicator:] down to the custom
    type. *)
Definition write_read_code_value (arg : TLArg.t) (name : string)
    : list stmt :=
  if flag_indicator arg then [SAssign "flags" RReadInt]
  else if (type arg =? "int")%string then [SAssign name RReadInt]
  else if (type arg =? "long")%string then [SAssign name RReadLong]
  else if (type arg =? "int128")%string then [SAssign name (RReadLargeInt 128)]
  else if (type arg =? "int256")%string then [SAssign name (RReadLargeInt 256)]
  else if (type arg =? "double")%string then [SAssign name RReadDouble]
  else if (type arg =? "string")%string then [SAssign name RTgreadString]
  else if (type arg =? "Bool")%string then [SAssign name RTgreadBool]
  else if (type arg =? "true")%string then [SAssign name RTrue]
  else if (type arg =? "bytes")%string then [SAssign name RTgreadBytes]
  else if (type arg =? "date")%string then [SAssign name RTgreadDate]
  else if negb (skip_constructor_id arg) then [SAssign name RTgreadObject]
  else
    let '(ns, t) := match split_at_dot (type arg) with
                    | None => (".", type arg)
                    | Some (a, b) => ("." +:+ a, b)
                    end in
    [SAssign name (RFromReader ns (class_name_for p t))].

(** [write_read_code(builder, arg, args, name)] *)
Definition write_read_code (arg : TLArg.t) (args : list TLArg.t)
    (name : string) : outcome (list stmt) :=
  if generic_definition arg then Ret []
  else if is_flag arg && (type arg =? "true")%string then
    k ← shl1 (flag_index arg); Ret [SAssign name (RFlagBit k)]
  else
    let body :=
      if is_vector arg then
        ((if use_vector_id arg then [SExpr RReadInt] else [])
           ++ [SAssign name REmptyList;
               SForRange RReadInt
                 (write_read_code_value (as_element arg) "_x"
                    ++ [SAppend name "_x"])])%list
      else write_read_code_value arg name in
    if is_flag arg then
      k ← shl1 (flag_index arg); Ret [SIfFlags k body [SAssign name RNone]]
    else Ret body.

(** [write_request_result_code(builder, tlobject)] *)
Definition write_request_result_code (tlobject : TLObject.t) : list stmt :=
  let result := TLObject.result tlobject in
  if String.prefix "Vector<" result then
    if (result =? "Vector<int>")%string then
      [SExpr RReadInt; SAssign "count" RReadInt;
       SSetResult (RListOf RReadInt "count")]
    else if (result =? "Vector<long>")%string then
      [SExpr RReadInt; SAssign "count" RReadLong;
       SSetResult (RListOf RReadLong "count")]
    else [SSetResult RTgreadVector]
  else [SSetResult RTgreadObject].

(** [write_get_input(builder, arg, get_input_code)] *)
Definition write_get_input (arg : TLArg.t) (get_input_code : string)
    : init_stmt :=
  IGetInput get_input_code (name arg) (is_vector arg) (is_flag arg).

(** [_write_self_assigns(builder, tlobject, arg, args)] *)
Definition _write_self_assigns (tlobject : TLObject.t) (arg : TLArg.t)
    (args : list TLArg.t) : outcome init_stmt :=
  let is_function := TLObject.is_function tlobject in
  if can_be_inferred arg then
    if (name arg =? "random_id")%string then
      let nbytes := if (type arg =? "long")%string then 8%nat else 4%nat in
      if is_vector arg then
        match List.find (fun a => (name a =? "id")%string) args with
        | None => Raise StopIteration
        | Some a =>
            if negb (is_vector a) then
              Raise (ValueError "Cannot infer list of random ids for "
                       (Some (AboutObject tlobject)))
            else Ret (IRandomId nbytes true)
        end
      else Ret (IRandomId nbytes false)
    else Raise (ValueError "Cannot infer a value for " (Some (AboutArg arg)))
  else if (type arg =? "InputPeer")%string && is_function then
    Ret (write_get_input arg "get_input_peer")
  else if (type arg =? "InputChannel")%string && is_function then
    Ret (write_get_input arg "get_input_channel")
  else if (type arg =? "InputUser")%string && is_function then
    Ret (write_get_input arg "get_input_user")
  else if (type arg =? "InputMedia")%string && is_function then
    Ret (write_get_input arg "get_input_media")
  else if (type arg =? "InputPhoto")%string && is_function then
    Ret (write_get_input arg "get_input_photo")
  else Ret (IStore (name arg)).
End Generator.

(** ** Meaning of the generated code *)

(** The fields of an instance ([self.NAME]), and local variables. *)
Abbreviation store := (gmap string pyval).

(** Whether the text of an expression has a hole where the generator wrote
    nothing: [b''.join( for x in N)], an empty tuple item.  Such text is not
    Python; evaluation raises SyntaxError as soon as it reaches an expression
    with a hole, whatever the values.  (That the module holding it cannot
    even be imported is not modelled.) *)
Fixpoint has_nothing (e : bexpr) : bool :=
  match e with
  | BNothing => true
  | BJoinFor body _ => has_nothing body
  | BJoin items => existsb has_nothing items
  | BIfPresent _ body => has_nothing body
  | _ => false
  end.

Section Semantics.
Variable rt : runtime.

Definition lookup_ref (self locals : store) (n : ref) : outcome pyval :=
  match n with
  | Self a => match self !! a with
              | Some v => Ret v
              | None => Raise (AttributeError a)
              end
  | Local x => match locals !! x with
               | Some v => Ret v
               | None => Raise (NameError x)
               end
  end.

Definition true_marker : bytes := [xb5; x75; x72; x99].   (* 0x997275b5 *)
Definition false_marker : bytes := [x37; x97; x79; xbc].  (* 0xbc799737 *)

Fixpoint eval_bexpr (self locals : store) (e : bexpr) : outcome bytes :=
  match e with
  | BNothing => Raise SyntaxError
  | BLit bs => Ret bs
  | BPackLen n =>
      v ← lookup_ref self locals n; len ← py_len v; pack_signed 4 (PInt len)
  | BJoinFor body n =>
      if has_nothing body then Raise SyntaxError
      else
        v ← lookup_ref self locals n;
        xs ← py_iter v;
        parts ← mapM (fun x => eval_bexpr self (<["x" := x]> locals) body) xs;
        Ret (concat parts)
  | BJoin items =>
      if existsb has_nothing items then Raise SyntaxError
      else parts ← mapM (eval_bexpr self locals) items; Ret (concat parts)
  | BIfPresent n body =>
      if has_nothing body then Raise SyntaxError
      else
        v ← lookup_ref self locals n;
        if is_absent v then Ret [] else eval_bexpr self locals body
  | BFlags terms =>
      ks ← mapM (fun '(f, k) => v ← lookup_ref self locals f;
                                Ret (if is_absent v then 0 else k)) terms;
      pack_unsigned 4 (fold_left Z.lor ks 0)
  | BPackInt n => v ← lookup_ref self locals n; pack_signed 4 v
  | BPackLong n => v ← lookup_ref self locals n; pack_signed 8 v
  | BToBytes k n => v ← lookup_ref self locals n; to_bytes_signed k v
  | BPackDouble n => v ← lookup_ref self locals n; pack_double rt v
  | BSerializeBytes n => v ← lookup_ref self locals n; serialize_bytes rt v
  | BBoolMarker n =>
      v ← lookup_ref self locals n;
      Ret (if truthy v then true_marker else false_marker)
  | BDate n =>
      v ← lookup_ref self locals n;
      match v with
      | PNone => Ret [x00; x00; x00; x00]
      | _ => t ← timestamp rt v; pack_unsigned 4 t
      end
  | BBytesOf n => v ← lookup_ref self locals n; object_bytes rt v
  end.

(** [self.A and self.B and ...]: stops at the first falsy operand. *)
Fixpoint all_truthy (self : store) (names : list string) : outcome bool :=
  match names with
  | [] => Ret true
  | n :: names' =>
      v ← lookup_ref self ∅ (Self n);
      if truthy v then all_truthy self names' else Ret false
  end.

(** [not self.A and not self.B and ...] *)
Fixpoint all_falsy (self : store) (names : list string) : outcome bool :=
  match names with
  | [] => Ret true
  | n :: names' =>
      v ← lookup_ref self ∅ (Self n);
      if truthy v then Ret false else all_falsy self names'
  end.

Definition exec_assert (self : store) (a : assert_stmt) : outcome unit :=
  c1 ← all_truthy self (assert_names a);
  if c1 : bool then Ret tt
  else c2 ← all_falsy self (assert_names a);
       if c2 : bool then Ret tt else Raise (AssertionError (assert_msg a)).

(** [bytes(instance)] for an instance of the class. *)
Definition py_bytes (c : py_class) (self : store) : outcome bytes :=
  _ ← mapM (exec_assert self) (bytes_asserts c);
  parts ← mapM (eval_bexpr self ∅) (bytes_items c);
  Ret (concat parts).

(** *** Reading *)

Definition lookup_var (env : store) (x : string) : outcome pyval :=
  match env !! x with
  | Some v => Ret v
  | None => Raise (NameError x)
  end.

Definition int_value (v : pyval) : outcome Z :=
  match as_int v with
  | Some z => Ret z
  | None => Raise TypeError
  end.

(** Runs [f] [n] times on a reader, collecting what it reads. *)
Fixpoint read_many (n : nat) (f : reader → outcome (pyval * reader))
    (r : reader) : outcome (list pyval * reader) :=
  match n with
  | O => Ret ([], r)
  | S n' => '(v, r') ← f r; '(vs, r'') ← read_many n' f r'; Ret (v :: vs, r'')
  end.

Fixpoint eval_rexpr (env : store) (e : rexpr) (r : reader)
    : outcome (pyval * reader) :=
  match e with
  | RReadInt => read_int r
  | RReadLong => read_long r
  | RReadLargeInt bits => read_large_int bits r
  | RReadDouble => read_double rt r
  | RTgreadString => tgread_string rt r
  | RTgreadBool => tgread_bool r
  | RTrue => Ret (PBool true, r)
  | RNone => Ret (PNone, r)
  | REmptyList => Ret (PList [], r)
  | RTgreadBytes => tgread_bytes rt r
  | RTgreadDate => tgread_date rt r
  | RTgreadObject => tgread_object rt r
  | RTgreadVector => tgread_vector rt r
  | RFromReader ns cls => from_reader_of rt ns cls r
  | RFlagBit k =>
      v ← lookup_var env "flags"; flags ← int_value v;
      Ret (PBool (negb (Z.land flags k =? 0)), r)
  | RListOf e' count =>
      v ← lookup_var env count; n ← int_value v;
      '(vs, r') ← read_many (Z.to_nat n) (eval_rexpr env e') r;
      Ret (PList vs, r')
  end.

(** Runs the body of a loop [n] times. *)
Fixpoint repeat_block {S} (n : nat) (body : S → outcome S) (st : S)
    : outcome S :=
  match n with
  | O => Ret st
  | S n' => st' ← body st; repeat_block n' body st'
  end.

Fixpoint exec_stmt (s : stmt) (st : store * reader)
    : outcome (store * reader) :=
  let exec_block :=
    fix go (b : list stmt) (st : store * reader) :=
      match b with
      | [] => Ret st
      | s' :: b' => st' ← exec_stmt s' st; go b' st'
      end in
  let '(env, r) := st in
  match s with
  | SAssign x e => '(v, r') ← eval_rexpr env e r; Ret (<[x := v]> env, r')
  | SExpr e => '(_, r') ← eval_rexpr env e r; Ret (env, r')
  | SIfFlags k body orelse =>
      v ← lookup_var env "flags"; flags ← int_value v;
      if Z.land flags k =? 0 then exec_block orelse st
      else exec_block body st
  | SForRange count body =>
      '(v, r') ← eval_rexpr env count r; n ← int_value v;
      repeat_block (Z.to_nat n) (exec_block body) (env, r')
  | SAppend x elem =>
      l ← lookup_var env x; v ← lookup_var env elem;
      match l with
      | PList vs => Ret (<[x := PList (vs ++ [v])]> env, r)
      | _ => Raise (AttributeError "append")
      end
  | SSetResult e =>
      '(v, r') ← eval_rexpr env e r; Ret (<["self.result" := v]> env, r')
  end.

Fixpoint exec_block (b : list stmt) (st : store * reader)
    : outcome (store * reader) :=
  match b with
  | [] => Ret st
  | s :: b' => st' ← exec_stmt s st; exec_block b' st'
  end.

(** *** The constructor *)

(** Binds the keyword arguments of a call to the parameters of [__init__]:
    an unknown keyword or a missing required parameter is a [TypeError]. *)
Definition bind_params (params : list (string * bool))
    (kwargs : list (string * pyval)) : outcome store :=
  if forallb (fun kw => existsb (fun pr => (pr.1 =? kw.1)%string) params)
       kwargs then
    foldr (fun pr acc =>
             env ← acc;
             match (list_to_map kwargs : store) !! pr.1 with
             | Some v => Ret (<[pr.1 := v]> env)
             | None => if pr.2 : bool then Ret (<[pr.1 := PNone]> env)
                       else Raise TypeError
             end)
          (Ret ∅) params
  else Raise TypeError.

(** [n] values [int.from_bytes(os.urandom(nbytes), 'big', signed=True)] *)
Fixpoint random_ints (n nbytes : nat) (s : entropy) : list Z * entropy :=
  match n with
  | O => ([], s)
  | S n' =>
      let '(bs, s') := urandom nbytes s in
      let '(zs, s'') := random_ints n' nbytes s' in
      (int_from_bytes_big_signed bs :: zs, s'')
  end.

Definition exec_init_stmt (params : store) (i : init_stmt)
    (st : store * entropy) : outcome (store * entropy) :=
  let '(self, s) := st in
  match i with
  | IStore n => v ← lookup_var params n; Ret (<[n := v]> self, s)
  | IRandomId nbytes as_list =>
      v ← lookup_var params "random_id";
      match v with
      | PNone =>
          if as_list then
            ids ← lookup_var params "id"; len ← py_len ids;
            let '(zs, s') := random_ints (Z.to_nat len) nbytes s in
            Ret (<["random_id" := PList (map PInt zs)]> self, s')
          else
            let '(bs, s') := urandom nbytes s in
            Ret (<["random_id" := PInt (int_from_bytes_big_signed bs)]> self,
                 s')
      | _ => Ret (<["random_id" := v]> self, s)
      end
  | IGetInput fn n vector flag =>
      v ← lookup_var params n;
      if flag && negb (truthy v) then Ret (<[n := PNone]> self, s)
      else if vector then
        xs ← py_iter v; ws ← mapM (get_input rt fn) xs;
        Ret (<[n := PList ws]> self, s)
      else w ← get_input rt fn v; Ret (<[n := w]> self, s)
  end.

Fixpoint exec_init_body (params : store) (body : list init_stmt)
    (st : store * entropy) : outcome (store * entropy) :=
  match body with
  | [] => Ret st
  | i :: body' =>
      st' ← exec_init_stmt params i st; exec_init_body params body' st'
  end.

(** [CLS(N=V, ...)]: the fields of the new instance. *)
Definition py_init (c : py_class) (kwargs : list (string * pyval))
    (s : entropy) : outcome (store * entropy) :=
  params ← bind_params (init_params c) kwargs;
  exec_init_body params (init_body c) (∅, s).

(** [CLS.from_reader(reader)] *)
Definition py_from_reader (c : py_class) (r : reader) (s : entropy)
    : outcome (store * reader * entropy) :=
  '(env, r') ← exec_block (from_reader_body c) (∅, r);
  kwargs ← mapM (fun n => v ← lookup_var env ("_" +:+ n); Ret (n, v))
                (from_reader_kwargs c);
  '(self, s') ← py_init c kwargs s;
  Ret (self, r', s').

(** [instance.on_response(reader)]: the value left in [self.result]. *)
Definition py_on_response (c : py_class) (r : reader)
    : outcome (option pyval * reader) :=
  match on_response c with
  | None => Raise (AttributeError "on_response")
  | Some body =>
      '(env, r') ← exec_block body (∅, r);
      Ret (env !! "self.result", r')
  end.
End Semantics.

(** ** Writing the classes and the output tree *)

(** Appends [a] to the list stored under [k], as
    [defaultdict(list)[k].append(a)]; keys keep their insertion order. *)
Fixpoint group_append {K A} (eqb : K → K → bool) (k : K) (a : A)
    (groups : list (K * list A)) : list (K * list A) :=
  match groups with
  | [] => [(k, [a])]
  | (k', l) :: groups' =>
      if eqb k k' then (k', (l ++ [a])%list) :: groups'
      else (k', l) :: group_append eqb k a groups'
  end.

(** [sorted(tlobjects, key=lambda x: x.name)]: a stable sort. *)
Fixpoint insert_by_name (t : TLObject.t) (l : list TLObject.t)
    : list TLObject.t :=
  match l with
  | [] => [t]
  | u :: l' =>
      if String.leb (TLObject.name t) (TLObject.name u) then t :: l
      else u :: insert_by_name t l'
  end.

Definition sorted_by_name (l : list TLObject.t) : list TLObject.t :=
  foldr insert_by_name [] l.

(** The generated tree, by path below the output directory.  The text of a
    file is kept as what it defines. *)
Inductive content :=
| ModuleSource (classes : list py_class)
| RegistrySource (layer : Z) (entries : list (string * string))
| OtherText (text : string).

Inductive node :=
| Directory
| File (c : content).

Abbreviation filesystem := (gmap string node).

Definition under (dir path : string) : bool := String.prefix (dir +:+ "/") path.

(** [shutil.rmtree(dir)] *)
Definition rmtree (dir : string) (fs : filesystem) : filesystem :=
  filter (λ kv : string * node, kv.1 ≠ dir ∧ under dir kv.1 = false) fs.

(** [os.makedirs(path, exist_ok=True)] for a path one level below the output
    directory. *)
Definition makedirs (path : string) (fs : filesystem) : outcome filesystem :=
  match fs !! path with
  | Some (File _) => Raise OSError
  | _ => Ret (<[path := Directory]> fs)
  end.

(** [open(path, 'w')], the writes, and the close. *)
Definition write_file (path : string) (c : content) (fs : filesystem)
    : outcome filesystem :=
  match fs !! path with
  | Some Directory => Raise OSError
  | _ => Ret (<[path := File c]> fs)
  end.

Section Output.
Variable p : parser.

Definition is_parameter (a : TLArg.t) : bool :=
  negb (TLArg.flag_indicator a) && negb (TLArg.generic_definition a).

(** [repeated_args]: the flag arguments by flag index. *)
Definition repeated_args (args : list TLArg.t)
    : list (Z * list TLArg.t) :=
  fold_left (fun groups arg =>
               if TLArg.is_flag arg then
                 group_append Z.eqb (TLArg.flag_index arg) arg groups
               else groups)
            args [].

Definition write_asserts (args : list TLArg.t) : list assert_stmt :=
  map (fun ra : Z * list TLArg.t =>
         {| assert_names := map TLArg.name ra.2;
            assert_msg := join ", " (map TLArg.name ra.2) +:+
              " parameters must all be False-y (like None) or all me True-y"
         |})
      (List.filter (fun ra : Z * list TLArg.t => (1 <? length ra.2)%nat)
                   (repeated_args args)).

(** The loop [for arg in tlobject.args: if write_to_bytes(...): ','],
    from position [i] on. *)
Fixpoint write_bytes_args (i : nat) (rest all : list TLArg.t)
    : outcome (list bexpr) :=
  match rest with
  | [] => Ret []
  | arg :: rest' =>
      written ← write_to_bytes arg i all None;
      items ← write_bytes_args (S i) rest' all;
      Ret (default [] written ++ items)%list
  end.

(** [_write_source_code(tlobject, builder, depth, type_constructors)] *)
Definition _write_source_code (tlobject : TLObject.t) : outcome py_class :=
  let all := TLObject.args tlobject in
  family ← encode_ascii (TLObject.result tlobject);
  let args := List.filter is_parameter all in
  assigns ← mapM (fun arg => _write_self_assigns tlobject arg args) args;
  cid ← struct_pack_I (TLObject.id tlobject);
  items ← write_bytes_args 0 all all;
  reads ← mapM (fun arg => write_read_code p arg all ("_" +:+ TLArg.name arg))
               all;
  Ret {| class_line := "class " +:+ class_name p tlobject +:+ "(TLObject):";
         constructor_id_line :=
           "CONSTRUCTOR_ID = " +:+ hex (TLObject.id tlobject);
         subclass_of_id_line := "SUBCLASS_OF_ID = " +:+ hex (crc32 family);
         init_params :=
           map (fun a => (TLArg.name a,
                          TLArg.is_flag a || TLArg.can_be_inferred a))
               (List.filter is_parameter (sorted_args p tlobject));
         init_sets_result := TLObject.is_function tlobject;
         init_body := assigns;
         bytes_asserts := write_asserts all;
         bytes_items := BLit cid :: items;
         from_reader_body := concat reads;
         from_reader_kwargs :=
           map TLArg.name
               (List.filter is_parameter (sorted_args p tlobject));
         on_response :=
           if TLObject.is_function tlobject
           then Some (write_request_result_code tlobject) else None |}.

(** The loop of [_write_init_py] over [namespace_tlobjects.items()].  A raise
    carries no tree: what a failed run leaves on disk (the module file it
    had opened, partly written) is outside this model. *)
Fixpoint write_namespaces (out_dir : string)
    (namespace_tlobjects : list (string * list TLObject.t))
    (fs : filesystem) : outcome filesystem :=
  match namespace_tlobjects with
  | [] => Ret fs
  | (ns, tlobjects) :: rest =>
      let file := out_dir +:+ "/" +:+
                  (if (ns =? "")%string then "__init__.py" else ns +:+ ".py") in
      (* open(file, 'w') comes first: the file is created or truncated *)
      opened ← write_file file (ModuleSource []) fs;
      (* the classes are generated, and written, inside the with block *)
      classes ← mapM _write_source_code (sorted_by_name tlobjects);
      write_namespaces out_dir rest
        (<[file := File (ModuleSource classes)]> opened)
  end.

(** [_write_init_py(out_dir, depth, namespace_tlobjects, type_constructors)] *)
Definition _write_init_py (out_dir : string)
    (namespace_tlobjects : list (string * list TLObject.t))
    (fs : filesystem) : outcome filesystem :=
  fs' ← makedirs out_dir fs;
  write_namespaces out_dir namespace_tlobjects fs'.

(** One line of the [tlobjects] dictionary: the key and the class path. *)
Definition registry_entry (tlobject : TLObject.t) : string * string :=
  let constructor := hex (TLObject.id tlobject) in
  let constructor :=
    if negb (String.length constructor =? 10)%nat
    then "0x" +:+ zfill 8 (string_from 2 constructor) else constructor in
  (constructor,
   (if TLObject.is_function tlobject then "functions" else "types")
     +:+ (if (TLObject.namespace tlobject =? "")%string then ""
          else "." +:+ TLObject.namespace tlobject)
     +:+ "." +:+ class_name p tlobject).

(** [clean_tlobjects()] through [_rm_if_exists(name)] *)
Definition _rm_if_exists (filename : string) (fs : filesystem) : filesystem :=
  match fs !! filename with
  | Some Directory => rmtree filename fs
  | Some (File _) => delete filename fs
  | None => fs
  end.

Definition clean_tlobjects (fs : filesystem) : filesystem :=
  foldl (fun fs name => _rm_if_exists name fs) fs
        ["functions"; "types"; "all_tlobjects.py"].

(** [generate_tlobjects(scheme_file, import_depth)], on the definitions
    [TLParser.parse_file(scheme_file, ignore_core=True)] returned. *)
Definition generate_tlobjects (tlobjects : list TLObject.t)
    (fs : filesystem) : outcome filesystem :=
  fs ← makedirs "functions" fs;
  fs ← makedirs "types" fs;
  let namespace_functions :=
    fold_left (fun g t => if TLObject.is_function t
                          then group_append String.eqb (TLObject.namespace t) t g
                          else g) tlobjects [] in
  let namespace_types :=
    fold_left (fun g t => if TLObject.is_function t then g
                          else group_append String.eqb (TLObject.namespace t) t g)
              tlobjects [] in
  fs ← _write_init_py "functions" namespace_functions fs;
  fs ← _write_init_py "types" namespace_types fs;
  write_file "all_tlobjects.py"
    (RegistrySource (find_layer p) (map registry_entry tlobjects)) fs.
End Output.

(** [int(s, 16)] on a string of hexadecimal digits. *)
Definition hex_value (c : ascii) : Z :=
  let n := Z.of_nat (nat_of_ascii c) in
  if (48 <=? n) && (n <=? 57) then n - 48
  else if (97 <=? n) && (n <=? 102) then n - 87
  else 0.

Definition int16_from (acc : Z) (s : list ascii) : Z :=
  fold_left (fun acc c => 16 * acc + hex_value c) s acc.

Definition int16 (s : string) : Z := int16_from 0 (list_ascii_of_string s).

(** The integer that a key of the registry denotes: the literal [0x...]. *)
Definition hex_literal (key : string) : Z := int16 (string_from 2 key).

(** The dictionary that the registry file defines,
    [tlobjects = {KEY: CLASS, ...}]: a key written twice keeps its last
    value. *)
Definition tlobjects_dict (entries : list (string * string)) : gmap Z string :=
  foldl (fun d e => <[hex_literal e.1 := e.2]> d) ∅ entries.

(** ** Sample collaborators and definitions, for the concrete checks *)

(** A parser that names classes after the definition, with [Request]
    appended for functions, and keeps the declared order of arguments. *)
Definition plain_parser : parser := {|
  class_name := fun t =>
    TLObject.name t +:+ (if TLObject.is_function t then "Request" else "");
  class_name_for := fun t => t;
  sorted_args := TLObject.args;
  find_layer := 71
|}.

(** A runtime in which only the primitives embedded above are present. *)
Definition bare_runtime : runtime := {|
  serialize_bytes := fun _ => Raise (RuntimeFault "serialize_bytes");
  pack_double := fun _ => Raise (RuntimeFault "pack_double");
  timestamp := fun _ => Raise (RuntimeFault "timestamp");
  object_bytes := fun _ => Raise (RuntimeFault "object_bytes");
  read_double := fun _ => Raise (RuntimeFault "read_double");
  tgread_string := fun _ => Raise (RuntimeFault "tgread_string");
  tgread_bytes := fun _ => Raise (RuntimeFault "tgread_bytes");
  tgread_date := fun _ => Raise (RuntimeFault "tgread_date");
  tgread_object := fun _ => Raise (RuntimeFault "tgread_object");
  tgread_vector := fun _ => Raise (RuntimeFault "tgread_vector");
  from_reader_of := fun _ _ _ => Raise (RuntimeFault "from_reader");
  get_input := fun _ v => Ret v
|}.

Definition plain_arg (name type : string) : TLArg.t :=
  TLArg.mk name type false false false (-1) false false false false.
Definition vector_arg (name type : string) : TLArg.t :=
  TLArg.mk name type true true false (-1) false false false false.
Definition flag_arg (name type : string) (index : Z) : TLArg.t :=
  TLArg.mk name type false false true index false false false false.
Definition flag_vector_arg (name type : string) (index : Z) : TLArg.t :=
  TLArg.mk name type true true true index false false false false.
Definition flags_arg : TLArg.t :=
  TLArg.mk "flags" "#" false false false (-1) true false false false.
Definition inferred_arg (name type : string) (vector : bool) : TLArg.t :=
  TLArg.mk name type vector vector false (-1) false false true false.

(** [sample flags:# silent:flags.0?true ids:flags.1?Vector<int> n:long = Sample] *)
Definition sample_type : TLObject.t :=
  TLObject.mk 0x1a2b3c4d "sample" "" false "Sample"
    [flags_arg; flag_arg "silent" "true" 0; flag_vector_arg "ids" "int" 1;
     plain_arg "n" "long"].

(** Two definitions that share the constructor id [1]. *)
Definition twin_a : TLObject.t := TLObject.mk 1 "a" "" false "T" [].
Definition twin_b : TLObject.t := TLObject.mk 1 "b" "" false "T" [].

(** [forward random_id:Vector<long> = Updates], with no argument named [id]. *)
Definition forward_without_id : TLObject.t :=
  TLObject.mk 0x708e0195 "forward" "messages" true "Updates"
    [inferred_arg "random_id" "long" true].

(** [send peer:int random_id:long = Updates] *)
Definition send_function : TLObject.t :=
  TLObject.mk 0xfa88427a "send" "messages" true "Updates"
    [plain_arg "peer" "int"; inferred_arg "random_id" "long" false].

(** [ids count:int = Vector<long>], a request answered by raw longs. *)
Definition long_ids_function : TLObject.t :=
  TLObject.mk 0x2d2a5b6c "ids" "" true "Vector<long>" [plain_arg "count" "int"].

(** [payment flags:# provider:flags.4?int params:flags.4?int = Payment]:
    two arguments behind the same flag bit. *)
Definition coindexed_type : TLObject.t :=
  TLObject.mk 0x3f56aea3 "payment" "" false "Payment"
    [flags_arg; flag_arg "provider" "int" 4; flag_arg "params" "int" 4].

(** [tagged flags:# ids:flags.1?Vector<int> = Tagged] *)
Definition tagged_type : TLObject.t :=
  TLObject.mk 0x0f0e0d0c "tagged" "" false "Tagged"
    [flags_arg; flag_vector_arg "ids" "int" 1].

(** An output directory left over from an earlier schema. *)
Definition stale_tree : filesystem :=
  <["functions/old.py" := File (OtherText "stale")]>
    (<["functions" := Directory]> ∅).

(** ** Notions used to state the properties of the output tree *)

(** The places generation writes to: the two trees and the registry file. *)
Definition generated (path : string) : Prop :=
  path = "functions" ∨ path = "types" ∨ path = "all_tlobjects.py"
  ∨ under "functions" path = true ∨ under "types" path = true.

(** Two trees hold the same things in those places. *)
Definition agree (fs1 fs2 : filesystem) : Prop :=
  ∀ path, generated path → fs1 !! path = fs2 !! path.

Definition agree_outcome (o1 o2 : outcome filesystem) : Prop :=
  match o1, o2 with
  | Ret fs1, Ret fs2 => agree fs1 fs2
  | Raise e1, Raise e2 => e1 = e2
  | _, _ => False
  end.

Definition is_directory (n : option node) : bool :=
  match n with
  | Some Directory => true
  | _ => false
  end.

(** Whatever lies below [functions] or [types] lies in a directory. *)
Definition tree_ok (fs : filesystem) : Prop :=
  ∀ dir path, dir = "functions" ∨ dir = "types" →
              under dir path = true → is_Some (fs !! path) →
              fs !! dir = Some Directory.

(** ** Notions used to state the properties of the encoder *)

(** The flag arguments of a definition that carry flag index [k]. *)
Definition same_index (k : Z) (args : list TLArg.t) : list TLArg.t :=
  List.filter (fun a => TLArg.is_flag a && (TLArg.flag_index a =? k)) args.

(** The list stored under a key, as [groups[k]] reads it. *)
Fixpoint group_of {A} (k : Z) (groups : list (Z * list A)) : option (list A) :=
  match groups with
  | [] => None
  | (k', l) :: groups' => if k =? k' then Some l else group_of k groups'
  end.

(** The value of a field, [None] standing in for a missing attribute. *)
Definition field (self : store) (n : string) : pyval :=
  default PNone (self !! n).

(** A flag argument whose value is neither [None] nor [False]. *)
Definition present (self : store) (a : TLArg.t) : bool :=
  negb (is_absent (field self (TLArg.name a))).

(** The bitwise OR of [1 << flag_index] over the flag arguments present. *)
Definition flags_mask (args : list TLArg.t) (self : store) : Z :=
  foldr Z.lor 0
    (map (fun a => Z.shiftl 1 (TLArg.flag_index a))
         (List.filter (fun a => TLArg.is_flag a && present self a) args)).

(** The bytes a run of items of the join contributes. *)
Definition encode_items (rt : runtime) (self : store) (items : list bexpr)
    : outcome bytes :=
  parts ← mapM (eval_bexpr rt self ∅) items; Ret (concat parts).

(** ** Notions used to state the round trip *)

(** What the decoder makes of a field that holds [v]: a flag of type [true]
    comes back as the truth of its bit, any other flag that is [None] or
    [False] comes back as [None]. *)
Definition canon (a : TLArg.t) (v : pyval) : pyval :=
  if TLArg.is_flag a then
    if (TLArg.type a =? "true")%string then PBool (negb (is_absent v))
    else if is_absent v then PNone else v
  else v.

(** One value of the argument's type survives the expression written by
    [write_to_bytes] followed by the statement written by
    [write_read_code]. *)
Definition value_round_trips (rt : runtime) (p : parser) (a : TLArg.t)
    (v : pyval) : Prop :=
  ∀ (self locals env : store) (n : ref) (x : string) (args : list TLArg.t)
    (e : bexpr) (bs tail : bytes),
    lookup_ref self locals n = Ret v →
    write_to_bytes_value a args n = Ret e →
    eval_bexpr rt self locals e = Ret bs →
    exec_block rt (write_read_code_value p a x) (env, bs ++ tail)
      = Ret (<[x := v]> env, tail).

(** A field value the codec can carry: nothing is asked of a [true] flag or
    of an absent flag; a vector is a list of values that survive, a scalar
    is a value that survives. *)
Definition legal_value (rt : runtime) (p : parser) (a : TLArg.t) (v : pyval)
    : Prop :=
  if TLArg.is_flag a && (TLArg.type a =? "true")%string then True
  else if TLArg.is_flag a && is_absent v then True
  else if TLArg.is_vector a then
    ∃ xs, v = PList xs ∧ Forall (value_round_trips rt p (as_element a)) xs
  else value_round_trips rt p a v.

(** The constructor stores the value it is given for the argument as it is
    (and draws no randomness). *)
Definition stored_unchanged (rt : runtime) (t : TLObject.t) (a : TLArg.t)
    (v : pyval) : Prop :=
  ∀ (i : init_stmt) (params self : store) (s : entropy),
    _write_self_assigns t a (List.filter is_parameter (TLObject.args t))
      = Ret i →
    params !! TLArg.name a = Some v →
    exec_init_stmt rt params i (self, s)
      = Ret (<[TLArg.name a := v]> self, s).

(** What the codec expects of a definition. *)
Record well_formed (p : parser) (t : TLObject.t) : Prop := {
  wf_indicator : ∀ a, a ∈ TLObject.args t → TLArg.flag_indicator a = true →
    TLArg.is_flag a = false ∧ TLArg.is_vector a = false
    ∧ TLArg.generic_definition a = false;
  wf_true : ∀ a, a ∈ TLObject.args t → TLArg.generic_definition a = false →
    TLArg.type a = "true" → TLArg.is_flag a = true;
  wf_index : ∀ a, a ∈ TLObject.args t → TLArg.is_flag a = true →
    TLArg.flag_index a < 32;
  wf_flags_after : ∀ pre a post, TLObject.args t = pre ++ a :: post →
    TLArg.is_flag a = true → TLArg.generic_definition a = false →
    ∃ ind, ind ∈ pre ∧ TLArg.flag_indicator ind = true;
  wf_names : NoDup (TLArg.name <$> List.filter is_parameter (TLObject.args t));
  wf_no_x : ∀ a, a ∈ TLObject.args t → is_parameter a = true →
    TLArg.name a ≠ "x";
  wf_sorted : List.filter is_parameter (sorted_args p t)
              ≡ₚ List.filter is_parameter (TLObject.args t)
}.

(** What the codec expects of an instance: values it can carry, arguments
    behind the same flag bit present together or absent together, and
    fields that the constructor leaves as they are. *)
Record legal_instance (rt : runtime) (p : parser) (t : TLObject.t)
    (self : store) : Prop := {
  li_values : ∀ a, a ∈ TLObject.args t →
    TLArg.generic_definition a = false → TLArg.flag_indicator a = false →
    legal_value rt p a (field self (TLArg.name a));
  li_together : ∀ a b, a ∈ TLObject.args t → b ∈ TLObject.args t →
    TLArg.is_flag a = true → TLArg.is_flag b = true →
    TLArg.flag_index a = TLArg.flag_index b →
    present self a = present self b;
  li_stored : ∀ a, a ∈ List.filter is_parameter (TLObject.args t) →
    stored_unchanged rt t a (canon a (field self (TLArg.name a)))
}.

(** An integer that fits [n] bytes in two's complement. *)
Definition in_signed_range (n : nat) (x : Z) : Prop :=
  - 2 ^ (8 * Z.of_nat n - 1) ≤ x < 2 ^ (8 * Z.of_nat n - 1).

(** * Properties *)

(** ** The outcome monad *)

Lemma bind_Ret_inv {A B} (m : outcome A) (k : A → outcome B) (b : B) :
  m ≫= k = Ret b → ∃ a, m = Ret a ∧ k a = Ret b.
Proof. destruct m as [a|e]; simpl; [eauto | discriminate]. Qed.

Lemma bind_Ret {A B} (m : outcome A) (k : A → outcome B) (a : A) :
  m = Ret a → m ≫= k = k a.
Proof. intros ->. reflexivity. Qed.

(** Splits a hypothesis [x ← m; k = Ret b] into [m = Ret a] and [k a = Ret b]. *)
Ltac bind_inv H :=
  let a := fresh "a" in
  let Ha := fresh "H" a in
  apply bind_Ret_inv in H; destruct H as (a & Ha & H).

Tactic Notation "bind_split" hyp(H) "as" ident(a) ident(Ha) :=
  apply bind_Ret_inv in H; destruct H as (a & Ha & H).

Lemma mapM_Ret_length {A B} (f : A → outcome B) (l : list A) (bs : list B) :
  mapM f l = Ret bs → length bs = length l.
Proof.
  revert bs. induction l as [|a l IH]; intros bs H; simpl in H.
  - injection H as <-. reflexivity.
  - bind_inv H. bind_inv H. injection H as <-. simpl. f_equal. eauto.
Qed.

Lemma mapM_Ret_lookup {A B} (f : A → outcome B) (l : list A) (bs : list B)
    (i : nat) (a : A) :
  mapM f l = Ret bs → l !! i = Some a → ∃ b, bs !! i = Some b ∧ f a = Ret b.
Proof.
  revert bs i. induction l as [|a' l IH]; intros bs i H Hi; [done|].
  simpl in H. bind_inv H. bind_inv H. injection H as <-.
  destruct i as [|i]; simpl in *.
  - injection Hi as ->. eauto.
  - eauto.
Qed.

Lemma mapM_app {A B} (f : A → outcome B) (l1 l2 : list A) :
  mapM f (l1 ++ l2) =
    (bs1 ← mapM f l1; bs2 ← mapM f l2; Ret (bs1 ++ bs2)).
Proof.
  induction l1 as [|a l1 IH]; simpl.
  - destruct (mapM f l2); reflexivity.
  - destruct (f a); simpl; [|reflexivity].
    rewrite IH. destruct (mapM f l1); simpl; [|reflexivity].
    destruct (mapM f l2); reflexivity.
Qed.

Lemma mapM_ext_in {A B} (f g : A → outcome B) (l : list A) :
  (∀ a, a ∈ l → f a = g a) → mapM f l = mapM g l.
Proof.
  induction l as [|a l IH]; intros H; simpl; [reflexivity|].
  rewrite (H a) by left. rewrite IH; [reflexivity|].
  intros b Hb. apply H. by right.
Qed.

(** ** Bytes and integers *)

Lemma Z_of_byte_range (b : byte) : 0 ≤ Z_of_byte b < 256.
Proof.
  unfold Z_of_byte. pose proof (Byte.to_N_bounded b). lia.
Qed.

Lemma Z_of_byte_of_Z (z : Z) : Z_of_byte (byte_of_Z z) = z mod 256.
Proof.
  unfold Z_of_byte, byte_of_Z.
  pose proof (Z.mod_pos_bound z 256 ltac:(lia)) as Hr.
  destruct (Byte.of_N (Z.to_N (z mod 256))) as [b|] eqn:E; simpl.
  - apply Byte.to_of_N in E. rewrite E. lia.
  - pose proof (Byte.to_of_N_option_map (Z.to_N (z mod 256))) as Ho.
    rewrite E in Ho. simpl in Ho.
    destruct (N.leb_spec (Z.to_N (z mod 256)) 255); [discriminate | lia].
Qed.

Lemma byte_of_Z_of_byte (b : byte) : byte_of_Z (Z_of_byte b) = b.
Proof.
  unfold byte_of_Z, Z_of_byte.
  pose proof (Byte.to_N_bounded b).
  rewrite Z.mod_small by lia. rewrite N2Z.id, Byte.of_to_N. reflexivity.
Qed.

Lemma length_le_bytes (n : nat) (z : Z) : length (le_bytes n z) = n.
Proof. revert z. induction n; intros z; simpl; [reflexivity | by rewrite IHn]. Qed.

Lemma le_unsigned_le_bytes (n : nat) (z : Z) :
  le_unsigned (le_bytes n z) = z mod 2 ^ (8 * Z.of_nat n).
Proof.
  revert z. induction n as [|n IH]; intros z.
  - simpl. by rewrite Z.mod_1_r.
  - cbn [le_bytes le_unsigned]. rewrite IH, Z_of_byte_of_Z.
    replace (8 * Z.of_nat (S n)) with (8 + 8 * Z.of_nat n) by lia.
    rewrite Z.pow_add_r by lia. change (2 ^ 8) with 256.
    rewrite Z.rem_mul_r by lia. reflexivity.
Qed.

Lemma le_unsigned_range (bs : bytes) :
  0 ≤ le_unsigned bs < 2 ^ (8 * Z.of_nat (length bs)).
Proof.
  induction bs as [|b bs IH].
  - simpl. lia.
  - cbn [le_unsigned length]. pose proof (Z_of_byte_range b).
    replace (8 * Z.of_nat (S (length bs))) with (8 + 8 * Z.of_nat (length bs))
      by lia.
    rewrite Z.pow_add_r by lia. change (2 ^ 8) with 256. nia.
Qed.

Lemma le_bytes_le_unsigned (bs : bytes) :
  le_bytes (length bs) (le_unsigned bs) = bs.
Proof.
  induction bs as [|b bs IH]; [reflexivity|].
  cbn [le_unsigned length le_bytes]. pose proof (Z_of_byte_range b).
  f_equal.
  - rewrite <- (byte_of_Z_of_byte b) at 2. unfold byte_of_Z.
    replace ((Z_of_byte b + 256 * le_unsigned bs) mod 256)
      with (Z_of_byte b mod 256); [reflexivity|].
    rewrite (Z.mul_comm 256). by rewrite Z_mod_plus_full.
  - etrans; [|exact IH]. f_equal.
    rewrite (Z.mul_comm 256), Z_div_plus_full by lia.
    rewrite Z.div_small by lia. lia.
Qed.

Lemma le_signed_range (bs : bytes) :
  bs ≠ [] →
  - 2 ^ (8 * Z.of_nat (length bs) - 1) ≤ le_signed bs
    < 2 ^ (8 * Z.of_nat (length bs) - 1).
Proof.
  intros Hne. unfold le_signed.
  pose proof (le_unsigned_range bs) as Hu.
  assert (0 < length bs)%nat by (destruct bs; [done | simpl; lia]).
  set (w := 8 * Z.of_nat (length bs)) in *.
  assert (2 ^ w = 2 * 2 ^ (w - 1)) as Hw.
  { rewrite <- Z.pow_succ_r by lia. f_equal. lia. }
  destruct (Z.ltb_spec (le_unsigned bs) (2 ^ (w - 1))); lia.
Qed.

Lemma le_signed_le_bytes (n : nat) (z : Z) :
  - 2 ^ (8 * Z.of_nat n - 1) ≤ z < 2 ^ (8 * Z.of_nat n - 1) →
  (0 < n)%nat →
  le_signed (le_bytes n z) = z.
Proof.
  intros Hz Hn. unfold le_signed.
  rewrite le_unsigned_le_bytes, length_le_bytes.
  set (w := 8 * Z.of_nat n) in *.
  assert (2 ^ w = 2 * 2 ^ (w - 1)) as Hw.
  { rewrite <- Z.pow_succ_r by lia. f_equal. lia. }
  assert (0 < 2 ^ (w - 1)) by (apply Z.pow_pos_nonneg; lia).
  destruct (Z.le_gt_cases 0 z).
  - rewrite Z.mod_small by lia.
    destruct (Z.ltb_spec z (2 ^ (w - 1))); lia.
  - assert (z mod 2 ^ w = z + 2 ^ w) as ->.
    { symmetry. apply Z.mod_unique with (-1); lia. }
    destruct (Z.ltb_spec (z + 2 ^ w) (2 ^ (w - 1))); lia.
Qed.

Lemma read_app (n : nat) (bs rest : bytes) :
  length bs = n → read n (bs ++ rest) = Ret (bs, rest).
Proof.
  intros <-. unfold read.
  rewrite length_app.
  destruct (Nat.leb_spec (length bs) (length bs + length rest)); [|lia].
  by rewrite take_app_length, drop_app_length.
Qed.

Lemma read_signed_le_bytes (n : nat) (z : Z) (rest : bytes) :
  - 2 ^ (8 * Z.of_nat n - 1) ≤ z < 2 ^ (8 * Z.of_nat n - 1) →
  (0 < n)%nat →
  read_signed n (le_bytes n z ++ rest) = Ret (PInt z, rest).
Proof.
  intros Hz Hn. unfold read_signed.
  rewrite read_app by apply length_le_bytes. simpl.
  by rewrite le_signed_le_bytes.
Qed.

(** ** Text helpers *)

Lemma hex_value_hex_digit (d : Z) : 0 ≤ d < 16 → hex_value (hex_digit d) = d.
Proof.
  intros Hd.
  assert (d = 0 ∨ d = 1 ∨ d = 2 ∨ d = 3 ∨ d = 4 ∨ d = 5 ∨ d = 6 ∨ d = 7 ∨
          d = 8 ∨ d = 9 ∨ d = 10 ∨ d = 11 ∨ d = 12 ∨ d = 13 ∨ d = 14 ∨ d = 15)
    as Hc by lia.
  repeat (destruct Hc as [-> | Hc]; [reflexivity|]). by subst.
Qed.

Lemma int16_from_hex_digits (fuel : nat) (n : Z) (acc : string) :
  0 ≤ n < 16 ^ Z.of_nat (S fuel) →
  int16 (hex_digits fuel n acc) = int16_from n (list_ascii_of_string acc).
Proof.
  unfold int16. revert n acc.
  induction fuel as [|fuel IH]; intros n acc Hn.
  - simpl. rewrite Z.mod_small by (simpl in Hn; lia).
    rewrite hex_value_hex_digit by (simpl in Hn; lia).
    unfold int16_from. simpl. reflexivity.
  - cbn [hex_digits].
    pose proof (Z.mod_pos_bound n 16 ltac:(lia)) as Hm.
    pose proof (Z.div_mod n 16 ltac:(lia)) as Hdm.
    destruct (Z.eqb_spec (n / 16) 0) as [Hz|Hz].
    + unfold int16_from. simpl. rewrite hex_value_hex_digit by lia.
      f_equal. lia.
    + rewrite IH.
      * unfold int16_from. simpl. rewrite hex_value_hex_digit by lia.
        f_equal. lia.
      * rewrite Nat2Z.inj_succ, Z.pow_succ_r in Hn by lia.
        split; [apply Z.div_pos; lia|].
        apply Z.div_lt_upper_bound; lia.
Qed.

Lemma string_from_2 (a b : ascii) (s : string) :
  string_from 2 (String a (String b s)) = s.
Proof.
  unfold string_from. cbn [list_ascii_of_string drop].
  apply string_of_list_ascii_of_string.
Qed.

Lemma int16_hex (z : Z) : 0 ≤ z → hex z = "0x" +:+ string_from 2 (hex z)
                               ∧ int16 (string_from 2 (hex z)) = z.
Proof.
  intros Hz. unfold hex. destruct (Z.ltb_spec z 0); [lia|].
  assert (∀ d, string_from 2 ("0x" +:+ d) = d) as Hs
    by (intros d; apply string_from_2).
  rewrite !Hs.
  split; [reflexivity|].
  rewrite int16_from_hex_digits; [reflexivity|].
  split; [lia|].
  destruct (Z.eq_dec z 0) as [->|Hne]; [reflexivity|].
  pose proof (Z.log2_spec z ltac:(lia)) as [_ Hl].
  pose proof (Z.log2_nonneg z).
  rewrite Nat2Z.inj_succ, Z2Nat.id by lia.
  eapply Z.lt_le_trans; [exact Hl|].
  apply Z.pow_le_mono_l. lia.
Qed.

Lemma int16_from_zeros (k : nat) (s : list ascii) :
  int16_from 0 (replicate k "0"%char ++ s) = int16_from 0 s.
Proof. induction k as [|k IH]; [reflexivity | exact IH]. Qed.

Lemma int16_zfill (w : nat) (s : string) : int16 (zfill w s) = int16 s.
Proof.
  unfold int16, zfill.
  assert (∀ a b, list_ascii_of_string (a +:+ b)
                 = list_ascii_of_string a ++ list_ascii_of_string b) as Happ.
  { intros a b. induction a as [|c a IH]; simpl; [reflexivity | by rewrite IH]. }
  rewrite Happ, list_ascii_of_string_of_list_ascii. apply int16_from_zeros.
Qed.

(** The key of a registry line denotes the constructor id. *)
Lemma registry_entry_key (p : parser) (t : TLObject.t) :
  0 ≤ TLObject.id t →
  ∃ digits, (registry_entry p t).1 = "0x" +:+ digits
            ∧ int16 digits = TLObject.id t.
Proof.
  intros Hid. unfold registry_entry. cbn [fst].
  destruct (int16_hex _ Hid) as [Hh Hv].
  destruct (negb _).
  - eexists. split; [reflexivity|]. by rewrite int16_zfill.
  - eexists. split; [exact Hh | exact Hv].
Qed.

Lemma registry_entry_key_inj (p : parser) (t u : TLObject.t) :
  0 ≤ TLObject.id t → 0 ≤ TLObject.id u →
  (registry_entry p t).1 = (registry_entry p u).1 →
  TLObject.id t = TLObject.id u.
Proof.
  intros Ht Hu Heq.
  destruct (registry_entry_key p t Ht) as (dt & Hkt & Hvt).
  destruct (registry_entry_key p u Hu) as (du & Hku & Hvu).
  rewrite Hkt, Hku in Heq. injection Heq as Heq.
  change (dt = du) in Heq. congruence.
Qed.

Lemma encode_ascii_Ret (s : string) (bs : bytes) :
  encode_ascii s = Ret bs → bs = map byte_of_ascii (list_ascii_of_string s).
Proof.
  unfold encode_ascii. generalize (list_ascii_of_string s) as cs.
  intros cs. revert bs. induction cs as [|c cs IH]; intros bs H; simpl in H.
  - by injection H as <-.
  - destruct (nat_of_ascii c <? 128)%nat; [|discriminate].
    simpl in H. bind_inv H. injection H as <-. simpl. f_equal. by apply IH.
Qed.

Example crc32_check_value :
  (bs ← encode_ascii "123456789"; Ret (hex (crc32 bs))) = Ret "0xcbf43926".
Proof. reflexivity. Qed.

(** ** The family tag *)

Lemma _write_source_code_family (p : parser) (t : TLObject.t) (c : py_class) :
  _write_source_code p t = Ret c →
  ∃ bs, encode_ascii (TLObject.result t) = Ret bs
        ∧ subclass_of_id_line c = "SUBCLASS_OF_ID = " +:+ hex (crc32 bs).
Proof.
  unfold _write_source_code. intros H.
  bind_inv H. bind_inv H. bind_inv H. bind_inv H. bind_inv H.
  injection H as <-. eauto.
Qed.

(** C3: the SUBCLASS_OF_ID line of every generated class is the hexadecimal
    CRC32 of the ASCII bytes of the definition's declared result type, so two
    definitions with the same result string get the same family tag. *)
Theorem subclass_of_id_is_crc32_of_result
    (p : parser) (t : TLObject.t) (c : py_class) :
  _write_source_code p t = Ret c →
  subclass_of_id_line c
    = "SUBCLASS_OF_ID = " +:+
      hex (crc32 (map byte_of_ascii
                      (list_ascii_of_string (TLObject.result t))))
  ∧ ∀ t' c', _write_source_code p t' = Ret c' →
             TLObject.result t' = TLObject.result t →
             subclass_of_id_line c' = subclass_of_id_line c.
Proof.
  intros H.
  destruct (_write_source_code_family p t c H) as (bs & Hbs & Hline).
  split.
  - rewrite Hline. by rewrite (encode_ascii_Ret _ _ Hbs).
  - intros t' c' H' Hres.
    destruct (_write_source_code_family p t' c' H') as (bs' & Hbs' & Hline').
    rewrite Hres in Hbs'. congruence.
Qed.

Lemma subclass_of_id_is_crc32_of_result_witness :
  ∃ c, _write_source_code plain_parser sample_type = Ret c
       ∧ subclass_of_id_line c = "SUBCLASS_OF_ID = 0xf6a773f5"
       ∧ ∀ t' c', _write_source_code plain_parser t' = Ret c' →
                  TLObject.result t' = "Sample" →
                  subclass_of_id_line c' = subclass_of_id_line c.
Proof.
  assert (∃ c, _write_source_code plain_parser sample_type = Ret c) as [c E]
    by (vm_compute; eauto).
  exists c. split; [exact E|].
  destruct (subclass_of_id_is_crc32_of_result plain_parser sample_type c E)
    as [Hline Hsame].
  split; [etrans; [exact Hline | vm_compute; reflexivity] | exact Hsame].
Defined.

(** ** Inferred fields that the generator rejects *)

Lemma _write_self_assigns_unsupported
    (t : TLObject.t) (arg : TLArg.t) (args : list TLArg.t) :
  TLArg.can_be_inferred arg = true →
  TLArg.name arg ≠ "random_id" →
  _write_self_assigns t arg args
    = Raise (ValueError "Cannot infer a value for " (Some (AboutArg arg))).
Proof.
  intros Hinf Hname. unfold _write_self_assigns. rewrite Hinf.
  by destruct (String.eqb_spec (TLArg.name arg) "random_id").
Qed.

Lemma _write_self_assigns_id_not_vector
    (t : TLObject.t) (arg a : TLArg.t) (args : list TLArg.t) :
  TLArg.can_be_inferred arg = true →
  TLArg.name arg = "random_id" →
  TLArg.is_vector arg = true →
  List.find (fun a => (TLArg.name a =? "id")%string) args = Some a →
  TLArg.is_vector a = false →
  _write_self_assigns t arg args
    = Raise (ValueError "Cannot infer list of random ids for "
               (Some (AboutObject t))).
Proof.
  intros Hinf Hname Hvec Hfind Ha. unfold _write_self_assigns.
  by rewrite Hinf, Hname, Hvec, Hfind, Ha.
Qed.

Lemma _write_self_assigns_no_id
    (t : TLObject.t) (arg : TLArg.t) (args : list TLArg.t) :
  TLArg.can_be_inferred arg = true →
  TLArg.name arg = "random_id" →
  TLArg.is_vector arg = true →
  (∀ a, a ∈ args → TLArg.name a ≠ "id") →
  _write_self_assigns t arg args = Raise StopIteration.
Proof.
  intros Hinf Hname Hvec Hno. unfold _write_self_assigns.
  rewrite Hinf, Hname, Hvec. simpl.
  destruct (List.find _ args) as [a|] eqn:E; [|reflexivity].
  apply find_some in E as [Hin Heq].
  apply String.eqb_eq in Heq. apply list_elem_of_In in Hin.
  by destruct (Hno a Hin).
Qed.

(** C5, at the failing input: a vector-typed inferable [random_id] in a
    definition without any argument named [id] stops generation with a bare
    [StopIteration], which names neither the definition nor the field. *)
Theorem vector_random_id_without_id_raises_StopIteration :
  _write_source_code plain_parser forward_without_id = Raise StopIteration
  ∧ generate_tlobjects plain_parser [forward_without_id] ∅
    = Raise StopIteration.
Proof. split; reflexivity. Qed.

(** ** The registry *)

Lemma generate_tlobjects_registry
    (p : parser) (tlobjects : list TLObject.t) (fs fs' : filesystem) :
  generate_tlobjects p tlobjects fs = Ret fs' →
  fs' !! "all_tlobjects.py"
    = Some (File (RegistrySource (find_layer p)
                    (map (registry_entry p) tlobjects))).
Proof.
  unfold generate_tlobjects. intros H.
  bind_inv H. bind_inv H. bind_inv H. bind_inv H.
  unfold write_file in H.
  destruct (a2 !! "all_tlobjects.py") as [[|?]|]; try discriminate;
    injection H as <-; apply lookup_insert_eq.
Qed.

Lemma NoDup_fmap_inj_on {A B} (f : A → B) (l : list A) (x y : A) :
  NoDup (f <$> l) → x ∈ l → y ∈ l → f x = f y → x = y.
Proof.
  induction l as [|a l IH]; intros Hnd Hx Hy Hf; [by apply elem_of_nil in Hx|].
  rewrite fmap_cons in Hnd. apply NoDup_cons in Hnd as [Hna Hnd].
  apply elem_of_cons in Hx as [->|Hx]; apply elem_of_cons in Hy as [->|Hy].
  - reflexivity.
  - destruct Hna. rewrite Hf. by apply list_elem_of_fmap_2.
  - destruct Hna. rewrite <- Hf. by apply list_elem_of_fmap_2.
  - by apply IH.
Qed.

Lemma registry_entry_literal (p : parser) (t : TLObject.t) :
  0 ≤ TLObject.id t → hex_literal (registry_entry p t).1 = TLObject.id t.
Proof.
  intros Hid. destruct (registry_entry_key p t Hid) as (digits & -> & Hd).
  unfold hex_literal.
  change ("0x" +:+ digits) with (String "0" (String "x" digits)).
  by rewrite string_from_2.
Qed.

Lemma tlobjects_dict_snoc (entries : list (string * string))
    (e : string * string) :
  tlobjects_dict (entries ++ [e])
    = <[hex_literal e.1 := e.2]> (tlobjects_dict entries).
Proof. unfold tlobjects_dict. by rewrite foldl_app. Qed.

(** The dictionary of a schema whose ids are pairwise distinct. *)
Lemma tlobjects_dict_distinct (p : parser) (tlobjects : list TLObject.t) :
  NoDup (TLObject.id <$> tlobjects) →
  (∀ t, t ∈ tlobjects → 0 ≤ TLObject.id t) →
  size (tlobjects_dict (map (registry_entry p) tlobjects)) = length tlobjects
  ∧ (∀ t, t ∈ tlobjects →
          tlobjects_dict (map (registry_entry p) tlobjects) !! TLObject.id t
            = Some (registry_entry p t).2)
  ∧ (∀ k, k ∉ TLObject.id <$> tlobjects →
          tlobjects_dict (map (registry_entry p) tlobjects) !! k = None).
Proof.
  induction tlobjects as [|t l IH] using rev_ind; intros Hnd Hpos.
  - split; [reflexivity|]. split; [by intros t ?%elem_of_nil | done].
  - rewrite fmap_app in Hnd. apply NoDup_app in Hnd as (Hnd & Hfresh & _).
    destruct IH as (Hsize & Hin & Hout);
      [done | intros u Hu; apply Hpos, elem_of_app; by left |].
    assert (TLObject.id t ∉ TLObject.id <$> l) as Hnew.
    { intros Hold. apply (Hfresh _ Hold). simpl. left. }
    rewrite map_app. cbn [map]. rewrite tlobjects_dict_snoc.
    rewrite registry_entry_literal
      by (apply Hpos, elem_of_app; right; left).
    split; [|split].
    + rewrite map_size_insert_None by (by apply Hout).
      rewrite Hsize, length_app. simpl. lia.
    + intros u [Hu | ->%list_elem_of_singleton]%elem_of_app.
      * rewrite lookup_insert_ne; [by apply Hin|].
        intros Heq. apply Hnew. rewrite Heq. by apply list_elem_of_fmap_2.
      * apply lookup_insert_eq.
    + intros k Hk. rewrite fmap_app in Hk.
      rewrite lookup_insert_ne.
      * apply Hout. intros Hl. apply Hk, elem_of_app. by left.
      * intros <-. apply Hk, elem_of_app. right. simpl. left.
Qed.

(** C2, as the code has it: nothing compares the constructor ids, so a
    shared id stops nothing.  For a valid schema (ids pairwise distinct, none
    negative) on which generation completes, the dictionary of the registry
    file has exactly one entry per definition: as many entries as
    definitions, each id mapped to its definition's class path, and no
    other key. *)
Theorem registry_has_one_entry_per_definition
    (p : parser) (tlobjects : list TLObject.t) (fs fs' : filesystem) :
  generate_tlobjects p tlobjects fs = Ret fs' →
  NoDup (TLObject.id <$> tlobjects) →
  (∀ t, t ∈ tlobjects → 0 ≤ TLObject.id t) →
  ∃ entries,
    fs' !! "all_tlobjects.py"
      = Some (File (RegistrySource (find_layer p) entries))
    ∧ size (tlobjects_dict entries) = length tlobjects
    ∧ (∀ t, t ∈ tlobjects →
            tlobjects_dict entries !! TLObject.id t
              = Some (registry_entry p t).2)
    ∧ (∀ k, k ∉ TLObject.id <$> tlobjects →
            tlobjects_dict entries !! k = None).
Proof.
  intros H Hnd Hpos. exists (map (registry_entry p) tlobjects).
  split; [by eapply generate_tlobjects_registry|].
  by apply tlobjects_dict_distinct.
Qed.

Lemma registry_has_one_entry_per_definition_witness :
  ∃ fs', generate_tlobjects plain_parser [sample_type; send_function] ∅
         = Ret fs'
    ∧ ∃ entries,
        fs' !! "all_tlobjects.py" = Some (File (RegistrySource 71 entries))
        ∧ size (tlobjects_dict entries) = 2%nat
        ∧ (∀ t, t ∈ [sample_type; send_function] →
                tlobjects_dict entries !! TLObject.id t
                  = Some (registry_entry plain_parser t).2)
        ∧ (∀ k, k ∉ TLObject.id <$> [sample_type; send_function] →
                tlobjects_dict entries !! k = None).
Proof.
  assert (∃ fs', generate_tlobjects plain_parser
                   [sample_type; send_function] ∅ = Ret fs') as [fs' E]
    by (vm_compute; eauto).
  exists fs'. split; [exact E|].
  apply (registry_has_one_entry_per_definition plain_parser _ ∅ fs' E).
  - apply NoDup_cons. split.
    + intros ?%list_elem_of_singleton. done.
    + apply NoDup_singleton.
  - intros t Ht. repeat (apply elem_of_cons in Ht as [->|Ht]); try done.
    by apply elem_of_nil in Ht.
Defined.

(** C2, as stated, fails: two definitions with the same constructor id are
    generated without any error, and both land in the registry under the
    same key. *)
Lemma duplicate_constructor_id_is_not_rejected :
  TLObject.id twin_a = TLObject.id twin_b
  ∧ twin_a ≠ twin_b
  ∧ ∃ fs', generate_tlobjects plain_parser [twin_a; twin_b] ∅ = Ret fs'
           ∧ fs' !! "all_tlobjects.py"
             = Some (File (RegistrySource 71
                             [("0x00000001", "types.a");
                              ("0x00000001", "types.b")])).
Proof.
  split; [reflexivity|]. split; [discriminate|].
  eexists. split; [vm_compute; reflexivity|]. vm_compute. reflexivity.
Qed.

(** ** Cleaning and regenerating the output tree *)

Lemma prefix_append (a b c : string) :
  String.prefix (a +:+ b) (a +:+ b +:+ c) = true.
Proof.
  induction a as [|x a IH]; simpl.
  - induction b as [|y b IH]; simpl; [by destruct c|].
    by destruct (ascii_dec y y).
  - by destruct (ascii_dec x x).
Qed.

Lemma under_join (dir file : string) : under dir (dir +:+ "/" +:+ file) = true.
Proof. apply prefix_append. Qed.

Lemma agree_outcome_bind (o1 o2 : outcome filesystem)
    (k1 k2 : filesystem → outcome filesystem) :
  agree_outcome o1 o2 →
  (∀ fs1 fs2, agree fs1 fs2 → agree_outcome (k1 fs1) (k2 fs2)) →
  agree_outcome (o1 ≫= k1) (o2 ≫= k2).
Proof.
  destruct o1, o2; simpl; intros H Hk; try done. by apply Hk.
Qed.

Lemma agree_insert (fs1 fs2 : filesystem) (path : string) (n : node) :
  agree fs1 fs2 → agree (<[path := n]> fs1) (<[path := n]> fs2).
Proof.
  intros H q Hq. destruct (decide (path = q)) as [->|Hne].
  - by rewrite !lookup_insert_eq.
  - rewrite !lookup_insert_ne by done. by apply H.
Qed.

Lemma makedirs_agree (dir : string) (fs1 fs2 : filesystem) :
  generated dir → agree fs1 fs2 →
  agree_outcome (makedirs dir fs1) (makedirs dir fs2).
Proof.
  intros Hd H. unfold makedirs. rewrite <- (H dir Hd).
  destruct (fs1 !! dir) as [[|?]|]; simpl; try done; by apply agree_insert.
Qed.

Lemma write_file_agree (path : string) (c : content) (fs1 fs2 : filesystem) :
  generated path → agree fs1 fs2 →
  agree_outcome (write_file path c fs1) (write_file path c fs2).
Proof.
  intros Hd H. unfold write_file. rewrite <- (H path Hd).
  destruct (fs1 !! path) as [[|?]|]; simpl; try done; by apply agree_insert.
Qed.

Lemma write_namespaces_agree (p : parser) (dir : string)
    (nss : list (string * list TLObject.t)) (fs1 fs2 : filesystem) :
  dir = "functions" ∨ dir = "types" → agree fs1 fs2 →
  agree_outcome (write_namespaces p dir nss fs1)
                (write_namespaces p dir nss fs2).
Proof.
  intros Hdir. revert fs1 fs2.
  induction nss as [|[ns ts] nss IH]; intros fs1 fs2 H; [done|].
  cbn [write_namespaces]. apply agree_outcome_bind.
  - apply write_file_agree; [|done].
    unfold generated. pose proof (under_join dir) as Hu.
    destruct Hdir as [-> | ->]; rewrite Hu; tauto.
  - intros a b Hab.
    destruct (mapM (_write_source_code p) (sorted_by_name ts)); simpl;
      [|done].
    apply IH. by apply agree_insert.
Qed.

Lemma _write_init_py_agree (p : parser) (dir : string)
    (nss : list (string * list TLObject.t)) (fs1 fs2 : filesystem) :
  dir = "functions" ∨ dir = "types" → agree fs1 fs2 →
  agree_outcome (_write_init_py p dir nss fs1) (_write_init_py p dir nss fs2).
Proof.
  intros Hdir H. unfold _write_init_py.
  apply agree_outcome_bind.
  - apply makedirs_agree; [|done]. unfold generated. tauto.
  - intros. by apply write_namespaces_agree.
Qed.

Lemma generate_tlobjects_agree (p : parser) (tlobjects : list TLObject.t)
    (fs1 fs2 : filesystem) :
  agree fs1 fs2 →
  agree_outcome (generate_tlobjects p tlobjects fs1)
                (generate_tlobjects p tlobjects fs2).
Proof.
  intros H. unfold generate_tlobjects.
  apply agree_outcome_bind;
    [apply makedirs_agree; [unfold generated; tauto | done]|].
  intros a1 b1 H1. apply agree_outcome_bind;
    [apply makedirs_agree; [unfold generated; tauto | done]|].
  intros a2 b2 H2. apply agree_outcome_bind;
    [apply _write_init_py_agree; [tauto | done]|].
  intros a3 b3 H3. apply agree_outcome_bind;
    [apply _write_init_py_agree; [tauto | done]|].
  intros a4 b4 H4. apply write_file_agree; [unfold generated; tauto | done].
Qed.

Lemma _rm_if_exists_lookup (name path : string) (fs : filesystem) :
  _rm_if_exists name fs !! path =
    if decide (path = name) then None
    else if under name path && is_directory (fs !! name)
         then None else fs !! path.
Proof.
  unfold _rm_if_exists, rmtree.
  destruct (decide (path = name)) as [->|Hne].
  - destruct (fs !! name) as [[|c]|] eqn:E.
    + apply map_lookup_filter_None. right. intros x _ [Hx _]. by apply Hx.
    + apply lookup_delete_eq.
    + exact E.
  - destruct (fs !! name) as [[|c]|] eqn:E; cbn [is_directory].
    + rewrite andb_true_r.
      destruct (under name path) eqn:Hu.
      * apply map_lookup_filter_None. right. intros x _ [_ Hx].
        simpl in Hx. congruence.
      * destruct (fs !! path) as [x|] eqn:Ep.
        -- by apply map_lookup_filter_Some.
        -- apply map_lookup_filter_None. by left.
    + rewrite andb_false_r. by apply lookup_delete_ne.
    + by rewrite andb_false_r.
Qed.

Lemma under_other_initial (c d : ascii) (dir path : string) :
  c ≠ d → under (String c dir) (String d path) = false.
Proof.
  intros Hne. unfold under. simpl. by destruct (ascii_dec c d).
Qed.

Lemma under_initial (c : ascii) (dir path : string) :
  under (String c dir) path = true → ∃ path', path = String c path'.
Proof.
  unfold under. destruct path as [|d path]; simpl; [done|].
  destruct (ascii_dec c d) as [->|]; [eauto | done].
Qed.

Lemma clean_tlobjects_removes (fs : filesystem) (path : string) :
  tree_ok fs → generated path → clean_tlobjects fs !! path = None.
Proof.
  intros Hok Hgen. unfold clean_tlobjects. cbn [foldl].
  rewrite !_rm_if_exists_lookup.
  destruct (decide (path = "all_tlobjects.py")) as [|H1]; [done|].
  destruct (decide (path = "types")) as [|H2];
    [by destruct (_ && _) | ].
  destruct (decide (path = "functions")) as [|H3];
    [by repeat destruct (_ && _) | ].
  destruct (decide ("types" = "functions")); [done|].
  destruct Hgen as [?|[?|[?|[Hu|Hu]]]]; try done.
  - (* below functions *)
    destruct (under_initial _ _ _ Hu) as [path' ->].
    rewrite Hu.
    rewrite (under_other_initial "a" "f"), (under_other_initial "t" "f") by done.
    cbn [andb].
    destruct (is_directory (fs !! "functions")) eqn:Hd; [done|].
    destruct (fs !! String "f" path') eqn:Ep; [|done].
    rewrite (Hok "functions" (String "f" path')) in Hd; eauto. done.
  - (* below types *)
    destruct (under_initial _ _ _ Hu) as [path' ->].
    rewrite Hu.
    rewrite (under_other_initial "a" "t"), (under_other_initial "f" "t") by done.
    cbn [andb].
    change (under "functions" "types") with false. cbn [andb].
    destruct (is_directory (fs !! "types")) eqn:Hd; [done|].
    destruct (fs !! String "t" path') eqn:Ep; [|done].
    rewrite (Hok "types" (String "t" path')) in Hd; eauto. done.
Qed.

(** C9, as the code has it: [generate_tlobjects] deletes nothing itself; the
    deleting is [clean_tlobjects], which empties the functions and types
    trees and removes the registry file.  Cleaning and then generating leaves
    in those places exactly what generating into an empty directory does. *)
Theorem clean_then_generate_leaves_no_stale_files
    (p : parser) (tlobjects : list TLObject.t) (fs fresh : filesystem) :
  tree_ok fs →
  generate_tlobjects p tlobjects ∅ = Ret fresh →
  (∀ path, generated path → clean_tlobjects fs !! path = None)
  ∧ ∃ fs', generate_tlobjects p tlobjects (clean_tlobjects fs) = Ret fs'
           ∧ ∀ path, generated path → fs' !! path = fresh !! path.
Proof.
  intros Hok Hfresh.
  split; [intros path Hp; by apply clean_tlobjects_removes|].
  assert (agree (clean_tlobjects fs) ∅) as Hagree.
  { intros path Hp. rewrite lookup_empty. by apply clean_tlobjects_removes. }
  pose proof (generate_tlobjects_agree p tlobjects _ _ Hagree) as H.
  rewrite Hfresh in H.
  destruct (generate_tlobjects p tlobjects (clean_tlobjects fs)) as [fs'|];
    simpl in H; [|done].
  exists fs'. split; [reflexivity | exact H].
Qed.

Lemma stale_tree_ok : tree_ok stale_tree.
Proof.
  intros dir path Hdir Hu [n Hn]. unfold stale_tree in *.
  destruct (decide (path = "functions/old.py")) as [->|Hne].
  - destruct Hdir as [-> | ->]; [reflexivity | discriminate].
  - rewrite lookup_insert_ne in Hn by done.
    destruct (decide (path = "functions")) as [->|Hne'].
    + destruct Hdir as [-> | ->]; discriminate.
    + rewrite lookup_insert_ne in Hn by done. by rewrite lookup_empty in Hn.
Qed.

Lemma clean_then_generate_leaves_no_stale_files_witness :
  ∃ fresh, generate_tlobjects plain_parser [sample_type] ∅ = Ret fresh
    ∧ clean_tlobjects stale_tree !! "functions/old.py" = None
    ∧ ∃ fs', generate_tlobjects plain_parser [sample_type]
               (clean_tlobjects stale_tree) = Ret fs'
             ∧ fs' !! "functions/old.py" = fresh !! "functions/old.py".
Proof.
  assert (∃ fresh, generate_tlobjects plain_parser [sample_type] ∅ = Ret fresh)
    as [fresh E] by (vm_compute; eauto).
  exists fresh. split; [exact E|].
  destruct (clean_then_generate_leaves_no_stale_files plain_parser
              [sample_type] stale_tree fresh stale_tree_ok E)
    as [Hclean (fs' & Hgen & Hsame)].
  assert (generated "functions/old.py") as Hg
    by (unfold generated; right; right; right; left; reflexivity).
  split; [exact (Hclean _ Hg)|].
  exists fs'. split; [exact Hgen | exact (Hsame _ Hg)].
Defined.

(** C9, as stated, fails: generating over the tree of an earlier schema
    keeps its stale file. *)
Lemma generate_tlobjects_keeps_stale_files :
  stale_tree !! "functions/old.py" = Some (File (OtherText "stale"))
  ∧ ∃ fs', generate_tlobjects plain_parser [sample_type] stale_tree = Ret fs'
           ∧ fs' !! "functions/old.py" = Some (File (OtherText "stale")).
Proof.
  split; [reflexivity|].
  eexists. split; [vm_compute; reflexivity|]. vm_compute. reflexivity.
Qed.


(** ** Decoding the response of a request *)

Lemma _write_source_code_on_response
    (p : parser) (t : TLObject.t) (c : py_class) :
  _write_source_code p t = Ret c →
  on_response c = if TLObject.is_function t
                  then Some (write_request_result_code t) else None.
Proof.
  unfold _write_source_code. intros H.
  bind_inv H. bind_inv H. bind_inv H. bind_inv H. bind_inv H.
  by injection H as <-.
Qed.

Lemma read_many_raw (n : nat) (xs : list Z) (rest : bytes) :
  (0 < n)%nat →
  Forall (fun x => - 2 ^ (8 * Z.of_nat n - 1) ≤ x < 2 ^ (8 * Z.of_nat n - 1))
         xs →
  read_many (length xs) (read_signed n)
            (concat (map (le_bytes n) xs) ++ rest)
    = Ret (map PInt xs, rest).
Proof.
  intros Hn. induction 1 as [|x xs Hx _ IH]; [reflexivity|].
  cbn [length map concat read_many]. rewrite <- app_assoc.
  rewrite read_signed_le_bytes by done. simpl. by rewrite IH.
Qed.

Lemma read_many_ext (n : nat) (f g : reader → outcome (pyval * reader))
    (r : reader) :
  (∀ r', f r' = g r') → read_many n f r = read_many n g r.
Proof.
  intros H. revert r. induction n as [|n IH]; intros r; simpl; [done|].
  rewrite H. destruct (g r) as [[v r']|]; simpl; [|done]. by rewrite IH.
Qed.

Lemma read_signed_discard (n : nat) (tag rest : bytes) :
  length tag = n →
  read_signed n (tag ++ rest) = Ret (PInt (le_signed tag), rest).
Proof. intros H. unfold read_signed. by rewrite read_app. Qed.

(** The raw decoding of a response [Vector<int>] ([n = 4], count read by
    [read_int]) or [Vector<long>] ([n = 8], count read by [read_long]). *)
Lemma raw_vector_response (rt : runtime) (n : nat) (count elem : rexpr)
    (tag : bytes) (xs : list Z) (rest : bytes) :
  (0 < n)%nat →
  (∀ env r, eval_rexpr rt env count r = read_signed n r) →
  (∀ env r, eval_rexpr rt env elem r = read_signed n r) →
  length tag = 4%nat →
  Z.of_nat (length xs) < 2 ^ (8 * Z.of_nat n - 1) →
  Forall (fun x => - 2 ^ (8 * Z.of_nat n - 1) ≤ x < 2 ^ (8 * Z.of_nat n - 1))
         xs →
  exec_block rt [SExpr RReadInt; SAssign "count" count;
                 SSetResult (RListOf elem "count")]
    (∅, tag ++ le_bytes n (Z.of_nat (length xs))
            ++ concat (map (le_bytes n) xs) ++ rest)
  = Ret (<["self.result" := PList (map PInt xs)]>
           (<["count" := PInt (Z.of_nat (length xs))]> ∅), rest).
Proof.
  intros Hn Hcount Helem Htag Hlen Hxs.
  cbn [exec_block exec_stmt eval_rexpr].
  unfold read_int. rewrite read_signed_discard by done. simpl.
  rewrite Hcount.
  rewrite read_signed_le_bytes by (done || lia). simpl.
  unfold lookup_var. rewrite lookup_insert_eq. simpl.
  rewrite Nat2Z.id.
  rewrite (read_many_ext _ _ (read_signed n)) by (intros; apply Helem).
  rewrite read_many_raw by done. reflexivity.
Qed.

(** C8: for a request whose result is exactly Vector<int> or Vector<long>,
    on_response skips the 4-byte vector tag, reads the count and then that
    many raw 32-bit (64-bit) integers, with no call of the dispatching
    readers; for Vector<long> the count is itself read as an 8-byte integer.
    Every other vector result is handed to tgread_vector. *)
Theorem response_vector_of_int_or_long_is_read_raw
    (rt : runtime) (p : parser) (t : TLObject.t) (c : py_class) :
  _write_source_code p t = Ret c →
  TLObject.is_function t = true →
  (TLObject.result t = "Vector<int>" →
   ∀ tag xs rest,
     length tag = 4%nat → Z.of_nat (length xs) < 2 ^ 31 →
     Forall (in_signed_range 4) xs →
     py_on_response rt c
       (tag ++ le_bytes 4 (Z.of_nat (length xs))
            ++ concat (map (le_bytes 4) xs) ++ rest)
     = Ret (Some (PList (map PInt xs)), rest))
  ∧ (TLObject.result t = "Vector<long>" →
     ∀ tag xs rest,
       length tag = 4%nat → Z.of_nat (length xs) < 2 ^ 63 →
       Forall (in_signed_range 8) xs →
       py_on_response rt c
         (tag ++ le_bytes 8 (Z.of_nat (length xs))
              ++ concat (map (le_bytes 8) xs) ++ rest)
       = Ret (Some (PList (map PInt xs)), rest))
  ∧ (String.prefix "Vector<" (TLObject.result t) = true →
     TLObject.result t ≠ "Vector<int>" →
     TLObject.result t ≠ "Vector<long>" →
     ∀ r, py_on_response rt c r
          = match tgread_vector rt r with
            | Ret (v, r') => Ret (Some v, r')
            | Raise e => Raise e
            end).
Proof.
  intros Hc Hfun.
  pose proof (_write_source_code_on_response p t c Hc) as Hresp.
  rewrite Hfun in Hresp. unfold py_on_response. rewrite Hresp.
  split; [|split].
  - intros Hres tag xs rest Htag Hlen Hxs.
    replace (write_request_result_code t)
      with [SExpr RReadInt; SAssign "count" RReadInt;
            SSetResult (RListOf RReadInt "count")]
      by (unfold write_request_result_code; by rewrite Hres).
    rewrite (raw_vector_response rt 4 RReadInt RReadInt);
      [simpl; by rewrite lookup_insert_eq
      | lia | done | done | done | exact Hlen | exact Hxs].
  - intros Hres tag xs rest Htag Hlen Hxs.
    replace (write_request_result_code t)
      with [SExpr RReadInt; SAssign "count" RReadLong;
            SSetResult (RListOf RReadLong "count")]
      by (unfold write_request_result_code; by rewrite Hres).
    rewrite (raw_vector_response rt 8 RReadLong RReadLong);
      [simpl; by rewrite lookup_insert_eq
      | lia | done | done | done | exact Hlen | exact Hxs].
  - unfold write_request_result_code. intros -> Hi Hl r.
    destruct (String.eqb_spec (TLObject.result t) "Vector<int>"); [done|].
    destruct (String.eqb_spec (TLObject.result t) "Vector<long>"); [done|].
    cbn [exec_block exec_stmt eval_rexpr].
    destruct (tgread_vector rt r) as [[v r']|]; simpl; [|done].
    by rewrite lookup_insert_eq.
Qed.

Lemma response_vector_of_int_or_long_is_read_raw_witness :
  ∃ c, _write_source_code plain_parser long_ids_function = Ret c
    ∧ py_on_response bare_runtime c
        ([x15; xc4; xb5; x1c]
           ++ le_bytes 8 2 ++ concat (map (le_bytes 8) [7; -1]) ++ [])
      = Ret (Some (PList [PInt 7; PInt (-1)]), []).
Proof.
  assert (∃ c, _write_source_code plain_parser long_ids_function = Ret c)
    as [c E] by (vm_compute; eauto).
  exists c. split; [exact E|].
  destruct (response_vector_of_int_or_long_is_read_raw bare_runtime
              plain_parser long_ids_function c E eq_refl) as (_ & Hlong & _).
  apply (Hlong eq_refl [x15; xc4; xb5; x1c] [7; -1] []).
  - reflexivity.
  - simpl. lia.
  - repeat constructor; unfold in_signed_range; simpl; lia.
Defined.

(** ** The inferred random_id *)

Lemma _write_source_code_init_body
    (p : parser) (t : TLObject.t) (c : py_class) :
  _write_source_code p t = Ret c →
  mapM (fun arg => _write_self_assigns t arg
                     (List.filter is_parameter (TLObject.args t)))
       (List.filter is_parameter (TLObject.args t))
    = Ret (init_body c).
Proof.
  unfold _write_source_code. intros H.
  bind_inv H. bind_inv H. bind_inv H. bind_inv H. bind_inv H.
  by injection H as <-.
Qed.

Lemma length_urandom (n : nat) (s : entropy) : length (urandom n s).1 = n.
Proof. unfold urandom. simpl. by rewrite length_map, length_seq. Qed.

Lemma int_from_bytes_big_signed_range (bs : bytes) :
  bs ≠ [] → in_signed_range (length bs) (int_from_bytes_big_signed bs).
Proof.
  intros Hne. unfold in_signed_range, int_from_bytes_big_signed.
  rewrite <- (length_rev bs). apply le_signed_range.
  intros Hrev. apply Hne. apply (f_equal (@rev byte)) in Hrev.
  by rewrite rev_involutive in Hrev.
Qed.

Lemma random_int_range (n : nat) (s : entropy) :
  (0 < n)%nat →
  in_signed_range n (int_from_bytes_big_signed (urandom n s).1).
Proof.
  intros Hn. rewrite <- (length_urandom n s) at 1.
  apply int_from_bytes_big_signed_range.
  intros Hnil. apply (f_equal (@length byte)) in Hnil.
  rewrite length_urandom in Hnil. simpl in Hnil. lia.
Qed.

Lemma random_ints_spec (k n : nat) (s : entropy) :
  (0 < n)%nat →
  length (random_ints k n s).1 = k
  ∧ Forall (in_signed_range n) (random_ints k n s).1.
Proof.
  intros Hn. revert s. induction k as [|k IH]; intros s.
  - simpl. split; [done | constructor].
  - cbn [random_ints].
    destruct (urandom n s) as [bs s'] eqn:Eu.
    destruct (random_ints k n s') as [zs s''] eqn:Er.
    destruct (IH s') as [Hlen Hall]. rewrite Er in Hlen, Hall.
    simpl in *. split; [by rewrite Hlen|].
    constructor; [|done].
    pose proof (random_int_range n s Hn) as Hr. by rewrite Eu in Hr.
Qed.

(** What [__init__] sees of the call: every parameter bound to the keyword
    argument of its name, or to None when the caller left it out. *)
Lemma bind_params_lookup (params : list (string * bool))
    (kwargs : list (string * pyval)) (penv : store) (n : string) (opt : bool) :
  bind_params params kwargs = Ret penv →
  (n, opt) ∈ params →
  penv !! n = Some (default PNone ((list_to_map kwargs : store) !! n)).
Proof.
  unfold bind_params. destruct (forallb _ kwargs); [|done].
  revert penv. induction params as [|pr params IH]; intros penv H Hin;
    [by apply elem_of_nil in Hin|].
  cbn [foldr] in H. bind_split H as env Henv.
  assert (penv = <[pr.1 := default PNone ((list_to_map kwargs : store) !! pr.1)]>
                   env) as ->.
  { destruct ((list_to_map kwargs : store) !! pr.1) as [v|]; simpl in *.
    - by injection H as <-.
    - destruct pr.2; [by injection H as <-|done]. }
  destruct (decide (pr.1 = n)) as [<-|Hne].
  - by rewrite lookup_insert_eq.
  - rewrite lookup_insert_ne by done.
    apply elem_of_cons in Hin as [Heq|Hin]; [by subst pr|]. by apply IH.
Qed.

Lemma _write_source_code_init_params
    (p : parser) (t : TLObject.t) (c : py_class) :
  _write_source_code p t = Ret c →
  init_params c
    = map (fun a => (TLArg.name a,
                     TLArg.is_flag a || TLArg.can_be_inferred a))
          (List.filter is_parameter (sorted_args p t)).
Proof.
  unfold _write_source_code. intros H.
  bind_split H as family Hfamily. bind_split H as assigns Hassigns.
  bind_split H as cid Hcid. bind_split H as items Hitems.
  bind_split H as reads Hreads.
  by injection H as <-.
Qed.

Lemma exec_init_body_app (rt : runtime) (params : store)
    (b1 b2 : list init_stmt) (st : store * entropy) :
  exec_init_body rt params (b1 ++ b2) st
    = (st' ← exec_init_body rt params b1 st; exec_init_body rt params b2 st').
Proof.
  revert st. induction b1 as [|i b1 IH]; intros st; simpl; [done|].
  destruct (exec_init_stmt rt params i st); simpl; [apply IH | done].
Qed.

(** The statement written for an argument that is not called random_id
    sets the field of that argument and draws nothing. *)
Lemma exec_init_stmt_other (rt : runtime) (t : TLObject.t) (b : TLArg.t)
    (args : list TLArg.t) (i : init_stmt) (params self self' : store)
    (s s' : entropy) :
  _write_self_assigns t b args = Ret i →
  TLArg.name b ≠ "random_id" →
  exec_init_stmt rt params i (self, s) = Ret (self', s') →
  s' = s ∧ ∃ w, self' = <[TLArg.name b := w]> self.
Proof.
  intros Hi Hname H. unfold _write_self_assigns in Hi.
  destruct (TLArg.can_be_inferred b).
  { destruct (String.eqb_spec (TLArg.name b) "random_id"); done. }
  assert (i = IStore (TLArg.name b)
          ∨ ∃ fn, i = IGetInput fn (TLArg.name b) (TLArg.is_vector b)
                        (TLArg.is_flag b)) as [-> | [fn ->]].
  { unfold write_get_input in Hi.
    repeat (destruct (_ && _); [injection Hi as <-; eauto|]).
    injection Hi as <-. by left. }
  - cbn [exec_init_stmt] in H. bind_split H as v Hv.
    injection H as <- <-. eauto.
  - cbn [exec_init_stmt] in H. bind_split H as v Hv.
    destruct (TLArg.is_flag b && negb (truthy v));
      [injection H as <- <-; eauto|].
    destruct (TLArg.is_vector b).
    + bind_split H as xs Hxs. bind_split H as ws Hws.
      injection H as <- <-. eauto.
    + bind_split H as w Hw. injection H as <- <-. eauto.
Qed.

Lemma exec_init_body_others (rt : runtime) (t : TLObject.t)
    (bs args : list TLArg.t) (body : list init_stmt)
    (params self self' : store) (s s' : entropy) :
  mapM (fun b => _write_self_assigns t b args) bs = Ret body →
  (∀ b, b ∈ bs → TLArg.name b ≠ "random_id") →
  exec_init_body rt params body (self, s) = Ret (self', s') →
  s' = s ∧ self' !! "random_id" = self !! "random_id".
Proof.
  revert body self. induction bs as [|b bs IH]; intros body self Hm Hn H.
  - simpl in Hm. injection Hm as <-. simpl in H. by injection H as <- <-.
  - simpl in Hm. bind_split Hm as i Hi. bind_split Hm as body' Hbody.
    injection Hm as <-. cbn [exec_init_body] in H.
    bind_split H as st Hst. destruct st as [self1 s1].
    destruct (exec_init_stmt_other rt t b args i params self self1 s s1 Hi)
      as (-> & w & ->); [apply Hn; left | done |].
    assert (∀ b0, b0 ∈ bs → TLArg.name b0 ≠ "random_id") as Hn'
      by (intros; apply Hn; by right).
    destruct (IH body' _ Hbody Hn' H) as [-> ->].
    split; [done|]. apply lookup_insert_ne. apply Hn. left.
Qed.

(** C4: in the generated constructor, an inferable random_id that the caller
    supplies (anything but None) is stored unchanged and nothing is drawn;
    left out or given as None, it is drawn from os.urandom as 8 bytes read as
    a signed 64-bit integer when the declared type is long and as 4 bytes
    read as a signed 32-bit integer otherwise; for a vector-typed field, one
    such integer per element of id. *)
Theorem random_id_is_kept_or_drawn
    (rt : runtime) (p : parser) (t : TLObject.t) (c : py_class)
    (a : TLArg.t) (kwargs : list (string * pyval)) (s s' : entropy)
    (self : store) :
  _write_source_code p t = Ret c →
  a ∈ List.filter is_parameter (TLObject.args t) →
  TLArg.can_be_inferred a = true →
  TLArg.name a = "random_id" →
  NoDup (TLArg.name <$> List.filter is_parameter (TLObject.args t)) →
  List.filter is_parameter (sorted_args p t)
    ≡ₚ List.filter is_parameter (TLObject.args t) →
  py_init rt c kwargs s = Ret (self, s') →
  let n := if (TLArg.type a =? "long")%string then 8%nat else 4%nat in
  let given := default PNone ((list_to_map kwargs : store) !! "random_id") in
  (given ≠ PNone → self !! "random_id" = Some given ∧ s' = s)
  ∧ (given = PNone → TLArg.is_vector a = false →
     self !! "random_id"
       = Some (PInt (int_from_bytes_big_signed (urandom n s).1))
     ∧ s' = (urandom n s).2
     ∧ length (urandom n s).1 = n
     ∧ in_signed_range n (int_from_bytes_big_signed (urandom n s).1))
  ∧ (given = PNone → TLArg.is_vector a = true →
     ∃ len,
       py_len (default PNone ((list_to_map kwargs : store) !! "id")) = Ret len
       ∧ self !! "random_id"
         = Some (PList (map PInt (random_ints (Z.to_nat len) n s).1))
       ∧ s' = (random_ints (Z.to_nat len) n s).2
       ∧ length (random_ints (Z.to_nat len) n s).1 = Z.to_nat len
       ∧ Forall (in_signed_range n) (random_ints (Z.to_nat len) n s).1).
Proof.
  intros Hc Ha Hinf Hname Hnd Hperm Hinit n given.
  assert (0 < n)%nat as Hn by (subst n; destruct (_ =? _)%string; lia).
  pose proof (_write_source_code_init_body p t c Hc) as Hbody.
  pose proof (_write_source_code_init_params p t c Hc) as Hparams.
  set (A := List.filter is_parameter (TLObject.args t)) in *.
  unfold py_init in Hinit. bind_split Hinit as penv Hpenv.
  (* the parameter random_id *)
  assert (penv !! "random_id" = Some given) as Hgiven.
  { apply (bind_params_lookup _ _ _ _
             (TLArg.is_flag a || TLArg.can_be_inferred a) Hpenv).
    rewrite Hparams, <- Hname. change (map ?f ?l) with (f <$> l).
    apply (list_elem_of_fmap_2
             (fun a => (TLArg.name a,
                        TLArg.is_flag a || TLArg.can_be_inferred a))).
    by rewrite Hperm. }
  (* the statements before, at and after the argument *)
  destruct (list_elem_of_split _ _ Ha) as (pre & post & HA).
  rewrite HA in Hbody, Hnd.
  rewrite mapM_app in Hbody.
  bind_split Hbody as bpre Hbpre. bind_split Hbody as brest Hbrest.
  injection Hbody as Hbody. cbn [mapM] in Hbrest.
  bind_split Hbrest as i Hi. bind_split Hbrest as bpost Hbpost.
  injection Hbrest as <-.
  rewrite fmap_app, fmap_cons in Hnd.
  apply NoDup_app in Hnd as (_ & Hpre & Hnd).
  apply NoDup_cons in Hnd as (Hpost & _).
  assert (∀ b, b ∈ pre → TLArg.name b ≠ "random_id") as Hpre'.
  { intros b Hb Heq. apply (Hpre (TLArg.name b)).
    - by apply list_elem_of_fmap_2.
    - rewrite Heq, <- Hname. left. }
  assert (∀ b, b ∈ post → TLArg.name b ≠ "random_id") as Hpost'.
  { intros b Hb Heq. apply Hpost. rewrite Hname, <- Heq.
    by apply list_elem_of_fmap_2. }
  rewrite <- Hbody, exec_init_body_app in Hinit.
  bind_split Hinit as st1 Hst1. destruct st1 as [self1 s1].
  cbn [exec_init_body] in Hinit.
  bind_split Hinit as st2 Hst2. destruct st2 as [self2 s2].
  rewrite <- HA in Hbpre, Hi, Hbpost.
  destruct (exec_init_body_others rt t pre A bpre penv ∅ self1 s s1
              Hbpre Hpre' Hst1) as [-> _].
  destruct (exec_init_body_others rt t post A bpost penv self2 self s2 s'
              Hbpost Hpost' Hinit) as [-> ->].
  (* the statement of random_id itself *)
  assert (i = IRandomId n (TLArg.is_vector a)) as ->.
  { unfold _write_self_assigns in Hi. rewrite Hinf, Hname in Hi.
    simpl in Hi. fold n in Hi.
    destruct (TLArg.is_vector a); [|congruence].
    destruct (List.find _ _) as [x|]; [|discriminate].
    destruct (TLArg.is_vector x); simpl in Hi; congruence. }
  cbn [exec_init_stmt] in Hst2. unfold lookup_var in Hst2.
  rewrite Hgiven in Hst2. simpl in Hst2.
  split; [|split].
  - intros Hne. destruct given; try done; by injection Hst2 as <- <-;
      rewrite lookup_insert_eq.
  - intros Hnone Hvec. rewrite Hnone, Hvec in Hst2.
    injection Hst2 as <- <-. rewrite lookup_insert_eq.
    split; [reflexivity|]. split; [reflexivity|].
    split; [apply length_urandom | by apply random_int_range].
  - intros Hnone Hvec. rewrite Hnone, Hvec in Hst2.
    bind_split Hst2 as ids Hids. bind_split Hst2 as len Hlen.
    assert (penv !! "id" = Some (default PNone
                                   ((list_to_map kwargs : store) !! "id")))
      as Hid.
    { unfold _write_self_assigns in Hi. rewrite Hinf, Hname, Hvec in Hi.
      simpl in Hi. destruct (List.find _ A) as [x|] eqn:Ex; [|discriminate].
      apply find_some in Ex as [Hx Hxn]. apply String.eqb_eq in Hxn.
      apply (bind_params_lookup _ _ _ _
               (TLArg.is_flag x || TLArg.can_be_inferred x) Hpenv).
      rewrite Hparams, <- Hxn. change (map ?f ?l) with (f <$> l).
      apply (list_elem_of_fmap_2
               (fun a => (TLArg.name a,
                          TLArg.is_flag a || TLArg.can_be_inferred a))).
      rewrite Hperm. by apply list_elem_of_In. }
    rewrite Hid in Hids. injection Hids as <-.
    exists len. split; [done|].
    pose proof (random_ints_spec (Z.to_nat len) n s Hn) as [Hl Hr].
    destruct (random_ints (Z.to_nat len) n s) as [zs su].
    injection Hst2 as <- <-. rewrite lookup_insert_eq. done.
Qed.

Lemma random_id_is_kept_or_drawn_witness :
  ∃ c given drawn,
    _write_source_code plain_parser send_function = Ret c
    ∧ py_init bare_runtime c [("peer", PInt 3); ("random_id", PInt 5)]
        (fun _ => xff) = Ret (given, fun _ => xff)
    ∧ given !! "random_id" = Some (PInt 5)
    ∧ py_init bare_runtime c [("peer", PInt 3)] (fun _ => xff)
      = Ret (drawn, fun _ => xff)
    ∧ drawn !! "random_id" = Some (PInt (-1)).
Proof.
  assert (∃ c, _write_source_code plain_parser send_function = Ret c)
    as [c E] by (vm_compute; eauto).
  assert (∃ given, py_init bare_runtime c
                     [("peer", PInt 3); ("random_id", PInt 5)] (fun _ => xff)
                   = Ret (given, fun _ => xff)) as [given Eg].
  { injection E as <-. vm_compute. eauto. }
  assert (∃ drawn, py_init bare_runtime c [("peer", PInt 3)] (fun _ => xff)
                   = Ret (drawn, fun _ => xff)) as [drawn Ed].
  { injection E as <-. vm_compute. eauto. }
  assert (inferred_arg "random_id" "long" false
          ∈ List.filter is_parameter (TLObject.args send_function)) as Hin
    by (simpl; right; left).
  assert (NoDup (TLArg.name
                   <$> List.filter is_parameter (TLObject.args send_function)))
    as Hnd.
  { simpl. apply NoDup_cons. split; [|apply NoDup_singleton].
    intros ?%list_elem_of_singleton. done. }
  exists c, given, drawn. split; [exact E|]. split; [exact Eg|].
  destruct (random_id_is_kept_or_drawn bare_runtime plain_parser send_function
              c _ _ _ _ given E Hin eq_refl eq_refl Hnd (reflexivity _) Eg)
    as (Hkept & _ & _).
  destruct (random_id_is_kept_or_drawn bare_runtime plain_parser send_function
              c _ _ _ _ drawn E Hin eq_refl eq_refl Hnd (reflexivity _) Ed)
    as (_ & Hdrawn & _).
  split; [apply Hkept; discriminate|]. split; [exact Ed|].
  destruct (Hdrawn eq_refl eq_refl) as (Hd & _). exact Hd.
Defined.

(** ** Flag arguments that share an index *)

Lemma group_of_group_append {A} (k k' : Z) (a : A) (g : list (Z * list A)) :
  group_of k' (group_append Z.eqb k a g)
    = if k' =? k then Some (default [] (group_of k g) ++ [a])
      else group_of k' g.
Proof.
  induction g as [|[k0 l] g IH]; simpl.
  - by destruct (Z.eqb_spec k' k).
  - destruct (Z.eqb_spec k k0) as [->|Hne]; simpl.
    + destruct (Z.eqb_spec k' k0); [done|]. reflexivity.
    + rewrite IH. destruct (Z.eqb_spec k' k0) as [->|Hne'].
      * destruct (Z.eqb_spec k0 k); [congruence | done].
      * reflexivity.
Qed.

Lemma group_append_keys {A} (k : Z) (a : A) (g : list (Z * list A)) :
  (group_append Z.eqb k a g).*1
    = if bool_decide (k ∈ g.*1) then g.*1 else g.*1 ++ [k].
Proof.
  induction g as [|[k0 l] g IH].
  - case_bool_decide as H; [by apply elem_of_nil in H | done].
  - cbn [group_append]. destruct (Z.eqb_spec k k0) as [->|Hne].
    + rewrite !fmap_cons. cbn [fst].
      clear IH. case_bool_decide as H; [done | destruct H; constructor].
    + rewrite !fmap_cons, IH. cbn [fst]. clear IH.
      case_bool_decide as Hin; case_bool_decide as Hin'; try done.
      * destruct Hin'. by right.
      * apply elem_of_cons in Hin' as [?|?]; done.
Qed.

Lemma group_of_elem {A} (k : Z) (l : list A) (g : list (Z * list A)) :
  NoDup g.*1 → (k, l) ∈ g ↔ group_of k g = Some l.
Proof.
  induction g as [|[k0 l0] g IH]; simpl; intros Hnd.
  - split; [by intros ?%elem_of_nil | done].
  - apply NoDup_cons in Hnd as [Hk0 Hnd].
    destruct (Z.eqb_spec k k0) as [->|Hne].
    + split.
      * intros [Heq|Hin]%elem_of_cons; [congruence|].
        destruct Hk0. apply list_elem_of_fmap. by exists (k0, l).
      * intros [= ->]. left.
    + rewrite <- IH by done. split.
      * intros [Heq|Hin]%elem_of_cons; [congruence | done].
      * intros Hin. by right.
Qed.

Lemma same_index_snoc (k : Z) (args : list TLArg.t) (a : TLArg.t) :
  same_index k (args ++ [a])
    = same_index k args
      ++ (if TLArg.is_flag a && (TLArg.flag_index a =? k) then [a] else []).
Proof. unfold same_index. rewrite List.filter_app. reflexivity. Qed.

Lemma repeated_args_spec (args : list TLArg.t) :
  NoDup (repeated_args args).*1
  ∧ ∀ k, group_of k (repeated_args args)
         = if bool_decide (same_index k args = []) then None
           else Some (same_index k args).
Proof.
  unfold repeated_args.
  induction args as [|a args [IHnd IH]] using rev_ind.
  - simpl. split; [constructor | done].
  - rewrite fold_left_app. cbn [fold_left].
    destruct (TLArg.is_flag a) eqn:Hflag.
    + split.
      * rewrite group_append_keys. case_bool_decide as Hin; [done|].
        apply NoDup_app. split; [done|]. split; [|apply NoDup_singleton].
        intros x Hx ->%list_elem_of_singleton. done.
      * intros k. rewrite group_of_group_append, same_index_snoc, Hflag.
        rewrite (Z.eqb_sym (TLArg.flag_index a) k). simpl.
        destruct (Z.eqb_spec k (TLArg.flag_index a)) as [->|Hne].
        -- rewrite IH.
           case_bool_decide as Hs; case_bool_decide as Happ;
             try (by destruct (app_eq_nil _ _ Happ)).
           ++ by rewrite Hs.
           ++ done.
        -- rewrite IH, app_nil_r. reflexivity.
    + split; [done|]. intros k. rewrite IH, same_index_snoc, Hflag.
      simpl. by rewrite app_nil_r.
Qed.

Lemma elem_of_repeated_args (args : list TLArg.t) (k : Z) (l : list TLArg.t) :
  (k, l) ∈ repeated_args args ↔ l = same_index k args ∧ l ≠ [].
Proof.
  destruct (repeated_args_spec args) as [Hnd Hg].
  rewrite group_of_elem by done. rewrite Hg.
  case_bool_decide as Hs; split.
  - done.
  - intros [-> ?]. done.
  - intros [= <-]. done.
  - intros [-> _]. done.
Qed.

Lemma elem_of_same_index (k : Z) (args : list TLArg.t) (a : TLArg.t) :
  a ∈ same_index k args
  ↔ a ∈ args ∧ TLArg.is_flag a = true ∧ TLArg.flag_index a = k.
Proof.
  unfold same_index. rewrite !list_elem_of_In, filter_In.
  rewrite andb_true_iff, Z.eqb_eq. tauto.
Qed.

Lemma all_truthy_spec (self : store) (names : list string) :
  (∀ n, n ∈ names → is_Some (self !! n)) →
  all_truthy self names
    = Ret (forallb (fun n => truthy (field self n)) names).
Proof.
  induction names as [|n names IH]; intros Hall; [reflexivity|].
  cbn [all_truthy forallb lookup_ref]. unfold field at 1.
  destruct (Hall n ltac:(left)) as [v ->]. simpl.
  destruct (truthy v); [|reflexivity].
  apply IH. intros m Hm. apply Hall. by right.
Qed.

Lemma all_falsy_spec (self : store) (names : list string) :
  (∀ n, n ∈ names → is_Some (self !! n)) →
  all_falsy self names
    = Ret (forallb (fun n => negb (truthy (field self n))) names).
Proof.
  induction names as [|n names IH]; intros Hall; [reflexivity|].
  cbn [all_falsy forallb lookup_ref]. unfold field at 1.
  destruct (Hall n ltac:(left)) as [v ->]. simpl.
  destruct (truthy v); [reflexivity|].
  apply IH. intros m Hm. apply Hall. by right.
Qed.

Lemma exec_assert_spec (self : store) (a : assert_stmt) :
  (∀ n, n ∈ assert_names a → is_Some (self !! n)) →
  exec_assert self a
    = if forallb (fun n => truthy (field self n)) (assert_names a)
         || forallb (fun n => negb (truthy (field self n))) (assert_names a)
      then Ret tt else Raise (AssertionError (assert_msg a)).
Proof.
  intros Hall. unfold exec_assert.
  rewrite all_truthy_spec, all_falsy_spec by done. simpl.
  destruct (forallb _ _); [reflexivity|]. simpl.
  by destruct (forallb _ _).
Qed.

(** When every assertion either passes or is violated, the first violated
    one decides. *)
Lemma asserts_pass (self : store) (asserts : list assert_stmt) :
  (∀ a, a ∈ asserts → exec_assert self a = Ret tt) →
  ∃ us, mapM (exec_assert self) asserts = Ret us.
Proof.
  induction asserts as [|a asserts IH]; intros Hall; [by eexists|].
  simpl. rewrite (Hall a) by left. simpl.
  destruct IH as [us ->]; [intros; apply Hall; by right|]. by eexists.
Qed.

Lemma asserts_fail (self : store) (asserts : list assert_stmt)
    (bad : assert_stmt) :
  (∀ a, a ∈ asserts →
        exec_assert self a = Ret tt
        ∨ exec_assert self a = Raise (AssertionError (assert_msg a))) →
  bad ∈ asserts →
  exec_assert self bad = Raise (AssertionError (assert_msg bad)) →
  ∃ msg, mapM (exec_assert self) asserts = Raise (AssertionError msg).
Proof.
  induction asserts as [|a asserts IH]; intros Hall Hin Hbad;
    [by apply elem_of_nil in Hin|].
  simpl. destruct (Hall a ltac:(left)) as [Ha | Ha]; rewrite Ha; simpl;
    [|by eexists].
  apply elem_of_cons in Hin as [->|Hin]; [congruence|].
  destruct IH as [msg ->]; [intros; apply Hall; by right | done | done|].
  by eexists.
Qed.

Lemma elem_of_write_asserts (args : list TLArg.t) (a : assert_stmt) :
  a ∈ write_asserts args ↔
  ∃ k, (1 < length (same_index k args))%nat
       ∧ assert_names a = map TLArg.name (same_index k args)
       ∧ assert_msg a
         = join ", " (map TLArg.name (same_index k args)) +:+
           " parameters must all be False-y (like None) or all me True-y".
Proof.
  unfold write_asserts. change (map ?f ?l) with (f <$> l) at 1.
  rewrite list_elem_of_fmap. split.
  - intros ([k l] & -> & Hin). apply list_elem_of_In, filter_In in Hin.
    destruct Hin as [Hin Hlen]. apply list_elem_of_In in Hin.
    apply elem_of_repeated_args in Hin as [-> _]. simpl in *.
    exists k. split; [by apply Nat.ltb_lt | done].
  - intros (k & Hlen & Hn & Hm). exists (k, same_index k args).
    split; [destruct a; simpl in *; by subst|].
    apply list_elem_of_In, filter_In. split.
    + apply list_elem_of_In, elem_of_repeated_args. split; [done|].
      intros Hnil. rewrite Hnil in Hlen. simpl in Hlen. lia.
    + simpl. by apply Nat.ltb_lt.
Qed.

Lemma _write_source_code_asserts (p : parser) (t : TLObject.t) (c : py_class) :
  _write_source_code p t = Ret c →
  bytes_asserts c = write_asserts (TLObject.args t).
Proof.
  unfold _write_source_code. intros H.
  bind_inv H. bind_inv H. bind_inv H. bind_inv H. bind_inv H.
  by injection H as <-.
Qed.

Lemma forallb_map_name (f : string → bool) (l : list TLArg.t) :
  forallb f (map TLArg.name l) = forallb (fun a => f (TLArg.name a)) l.
Proof. induction l as [|a l IH]; simpl; [done | by rewrite IH]. Qed.

Lemma same_index_unused (k : Z) (args : list TLArg.t) :
  k ∉ TLArg.flag_index <$> List.filter TLArg.is_flag args →
  same_index k args = [].
Proof.
  intros Hnot. destruct (same_index k args) as [|b l] eqn:E; [done|].
  assert (b ∈ same_index k args) as Hb by (rewrite E; left).
  apply elem_of_same_index in Hb as (Hin & Hf & <-).
  destruct Hnot. apply list_elem_of_fmap_2.
  apply list_elem_of_In, filter_In. split; [by apply list_elem_of_In | done].
Qed.

Lemma same_index_one (k : Z) (args : list TLArg.t) :
  NoDup (TLArg.flag_index <$> List.filter TLArg.is_flag args) →
  (length (same_index k args) ≤ 1)%nat.
Proof.
  induction args as [|a args IH]; [simpl; lia|].
  unfold same_index. cbn [List.filter].
  destruct (TLArg.is_flag a) eqn:Hf; cbn [andb]; [|exact IH].
  rewrite fmap_cons. intros [Hnot Hnd]%NoDup_cons.
  destruct (Z.eqb_spec (TLArg.flag_index a) k) as [<-|Hne]; [|by apply IH].
  fold (same_index (TLArg.flag_index a) args).
  rewrite same_index_unused by done. simpl. lia.
Qed.

Lemma uniform_forallb {A} (f : A → bool) (l : list A) :
  (∀ a b, a ∈ l → b ∈ l → f a = f b) →
  forallb f l || forallb (fun a => negb (f a)) l = true.
Proof.
  intros Hu. destruct l as [|x l]; [reflexivity|].
  destruct (f x) eqn:Hx.
  - apply orb_true_iff. left. apply forallb_forall. intros y Hy.
    rewrite <- Hx. apply Hu; [by apply list_elem_of_In | left].
  - apply orb_true_iff. right. apply forallb_forall. intros y Hy.
    rewrite (Hu y x); [by rewrite Hx | by apply list_elem_of_In | left].
Qed.

Lemma mixed_forallb {A} (f : A → bool) (l : list A) (a b : A) :
  a ∈ l → b ∈ l → f a ≠ f b →
  forallb f l || forallb (fun a => negb (f a)) l = false.
Proof.
  intros Ha Hb Hne. apply orb_false_iff. split.
  - apply not_true_is_false. intros Hall.
    rewrite forallb_forall in Hall.
    rewrite (Hall a), (Hall b) in Hne by (by apply list_elem_of_In). done.
  - apply not_true_is_false. intros Hall.
    rewrite forallb_forall in Hall.
    pose proof (Hall a ltac:(by apply list_elem_of_In)) as H1.
    pose proof (Hall b ltac:(by apply list_elem_of_In)) as H2.
    destruct (f a), (f b); done.
Qed.

Lemma two_elements {A} (l : list A) (a b : A) :
  a ∈ l → b ∈ l → a ≠ b → (1 < length l)%nat.
Proof.
  intros Ha Hb Hne. destruct l as [|x [|y l]]; simpl; [| |lia].
  - by apply elem_of_nil in Ha.
  - apply list_elem_of_singleton in Ha, Hb. congruence.
Qed.

(** C7: the assertions written at the head of __bytes__ are one per flag
    index carried by two or more arguments.  If the arguments of every such
    group are all truthy or all falsy the assertions pass and the encoding
    is the join of the items; if two arguments with the same flag index
    differ in truth value, encoding raises AssertionError; a definition whose
    flag indices are all distinct gets no assertion. *)
Theorem coindexed_flags_must_agree
    (rt : runtime) (p : parser) (t : TLObject.t) (c : py_class)
    (self : store) :
  _write_source_code p t = Ret c →
  (∀ a, a ∈ TLObject.args t → TLArg.is_flag a = true →
        is_Some (self !! TLArg.name a)) →
  ((∀ a b, a ∈ TLObject.args t → b ∈ TLObject.args t →
           TLArg.is_flag a = true → TLArg.is_flag b = true →
           TLArg.flag_index a = TLArg.flag_index b →
           truthy (field self (TLArg.name a))
             = truthy (field self (TLArg.name b))) →
   py_bytes rt c self
     = (parts ← mapM (eval_bexpr rt self ∅) (bytes_items c);
        Ret (concat parts)))
  ∧ (∀ a b, a ∈ TLObject.args t → b ∈ TLObject.args t →
            TLArg.is_flag a = true → TLArg.is_flag b = true →
            TLArg.flag_index a = TLArg.flag_index b →
            truthy (field self (TLArg.name a))
              ≠ truthy (field self (TLArg.name b)) →
            ∃ msg, py_bytes rt c self = Raise (AssertionError msg))
  ∧ (NoDup (TLArg.flag_index <$> List.filter TLArg.is_flag (TLObject.args t)) →
     bytes_asserts c = []).
Proof.
  intros Hc Hset.
  pose proof (_write_source_code_asserts p t c Hc) as Hasserts.
  set (args := TLObject.args t) in *.
  assert (∀ a, a ∈ write_asserts args →
               ∀ n, n ∈ assert_names a → is_Some (self !! n)) as Hnames.
  { intros a (k & _ & Hn & _)%elem_of_write_asserts n Hin.
    rewrite Hn in Hin. change (map ?f ?l) with (f <$> l) in Hin.
    apply list_elem_of_fmap in Hin as (x & -> & Hx).
    apply elem_of_same_index in Hx as (Hx & Hf & _). by apply Hset. }
  unfold py_bytes. rewrite Hasserts.
  split; [|split].
  - intros Hu.
    destruct (asserts_pass self (write_asserts args)) as [us ->];
      [|reflexivity].
    intros a Ha. rewrite exec_assert_spec by (by apply Hnames).
    apply elem_of_write_asserts in Ha as (k & _ & Hn & _).
    rewrite Hn, !forallb_map_name.
    rewrite (uniform_forallb (fun x => truthy (field self (TLArg.name x))));
      [reflexivity|].
    intros x y (Hx & Hfx & Hkx)%elem_of_same_index
                 (Hy & Hfy & Hky)%elem_of_same_index.
    apply Hu; congruence.
  - intros a b Ha Hb Hfa Hfb Hk Hne.
    set (l := same_index (TLArg.flag_index a) args).
    assert (a ∈ l) as Hal by (by apply elem_of_same_index).
    assert (b ∈ l) as Hbl by (by apply elem_of_same_index).
    assert (1 < length l)%nat as Hlen.
    { apply (two_elements l a b); [done | done | congruence]. }
    set (bad := {| assert_names := map TLArg.name l;
                   assert_msg := join ", " (map TLArg.name l) +:+
                " parameters must all be False-y (like None) or all me True-y"
                |}).
    assert (bad ∈ write_asserts args) as Hbad.
    { apply elem_of_write_asserts. by exists (TLArg.flag_index a). }
    destruct (asserts_fail self (write_asserts args) bad) as [msg Hmsg].
    + intros x Hx. rewrite exec_assert_spec by (by apply Hnames).
      destruct (_ || _); auto.
    + done.
    + rewrite exec_assert_spec by (by apply Hnames).
      cbn [assert_names bad]. rewrite !forallb_map_name.
      by rewrite (mixed_forallb
                    (fun x => truthy (field self (TLArg.name x))) l a b).
    + exists msg. by rewrite Hmsg.
  - intros Hnd. unfold write_asserts.
    assert (List.filter
              (fun ra : Z * list TLArg.t => (1 <? length ra.2)%nat)
              (repeated_args args) = []) as ->; [|reflexivity].
    destruct (List.filter _ (repeated_args args)) as [|[k l] rest] eqn:E;
      [done|].
    assert (In (k, l) (List.filter
              (fun ra : Z * list TLArg.t => (1 <? length ra.2)%nat)
              (repeated_args args))) as Hin by (rewrite E; by left).
    apply filter_In in Hin as [Hin Hlen].
    apply list_elem_of_In, elem_of_repeated_args in Hin as [-> _].
    simpl in Hlen. apply Nat.ltb_lt in Hlen.
    pose proof (same_index_one k args Hnd). lia.
Qed.

Lemma coindexed_flags_must_agree_witness :
  ∃ c, _write_source_code plain_parser coindexed_type = Ret c
    ∧ py_bytes bare_runtime c {[ "provider" := PInt 1; "params" := PInt 2 ]}
      = Ret ([xa3; xae; x56; x3f] ++ [x10; x00; x00; x00]
             ++ [x01; x00; x00; x00] ++ [x02; x00; x00; x00])
    ∧ ∃ msg, py_bytes bare_runtime c
               {[ "provider" := PInt 1; "params" := PNone ]}
             = Raise (AssertionError msg).
Proof.
  assert (∃ c, _write_source_code plain_parser coindexed_type = Ret c)
    as [c E] by (vm_compute; eauto).
  exists c. split; [exact E|].
  assert (∀ self : store,
            is_Some (self !! "provider") → is_Some (self !! "params") →
            ∀ a, a ∈ TLObject.args coindexed_type → TLArg.is_flag a = true →
                 is_Some (self !! TLArg.name a)) as Hset.
  { intros self H1 H2 a Ha Hf. simpl in Ha.
    repeat (apply elem_of_cons in Ha as [->|Ha]); try done.
    by apply elem_of_nil in Ha. }
  split.
  - destruct (coindexed_flags_must_agree bare_runtime plain_parser
                coindexed_type c
                {[ "provider" := PInt 1; "params" := PInt 2 ]} E)
      as (Hpass & _ & _).
    { apply Hset; vm_compute; eauto. }
    rewrite Hpass.
    + injection E as <-. vm_compute. reflexivity.
    + intros a b Ha Hb Hfa Hfb _. simpl in Ha, Hb.
      repeat (apply elem_of_cons in Ha as [->|Ha]); try done;
        repeat (apply elem_of_cons in Hb as [->|Hb]); try done;
        by apply elem_of_nil in Ha || by apply elem_of_nil in Hb.
  - destruct (coindexed_flags_must_agree bare_runtime plain_parser
                coindexed_type c
                {[ "provider" := PInt 1; "params" := PNone ]} E)
      as (_ & Hfail & _).
    { apply Hset; vm_compute; eauto. }
    apply (Hfail (flag_arg "provider" "int" 4) (flag_arg "params" "int" 4));
      try reflexivity.
    + simpl. right. left.
    + simpl. right. right. left.
    + vm_compute. discriminate.
Defined.

(** ** The constructor id and the flags *)

Lemma mapM_Ret_map {A B} (f : A → outcome B) (g : A → B) (l : list A)
    (bs : list B) :
  (∀ a b, a ∈ l → f a = Ret b → b = g a) →
  mapM f l = Ret bs → bs = map g l.
Proof.
  revert bs. induction l as [|a l IH]; intros bs Hg H; simpl in H.
  - by injection H as <-.
  - bind_inv H. bind_inv H. injection H as <-. simpl. f_equal.
    + apply Hg; [left | done].
    + apply IH; [|done]. intros x b Hx. apply Hg. by right.
Qed.

Lemma mapM_Ret_Forall {A B} (f : A → outcome B) (l : list A) (bs : list B) :
  mapM f l = Ret bs → Forall (fun a => ∃ b, f a = Ret b) l.
Proof.
  revert bs. induction l as [|a l IH]; intros bs H; simpl in H;
    [constructor|].
  bind_inv H. bind_inv H. constructor; eauto.
Qed.

Lemma encode_items_app (rt : runtime) (self : store) (l1 l2 : list bexpr) :
  encode_items rt self (l1 ++ l2)
    = (b1 ← encode_items rt self l1; b2 ← encode_items rt self l2;
       Ret (b1 ++ b2)).
Proof.
  unfold encode_items. rewrite mapM_app.
  destruct (mapM _ l1) as [p1|]; simpl; [|done].
  destruct (mapM _ l2) as [p2|]; simpl; [|done].
  by rewrite concat_app.
Qed.

Lemma encode_items_cons (rt : runtime) (self : store) (e : bexpr)
    (l : list bexpr) :
  encode_items rt self (e :: l)
    = (b ← eval_bexpr rt self ∅ e; bs ← encode_items rt self l;
       Ret (b ++ bs)).
Proof.
  unfold encode_items. simpl.
  destruct (eval_bexpr rt self ∅ e); simpl; [|done].
  by destruct (mapM _ l).
Qed.

Lemma write_bytes_args_app (i : nat) (pre post all : list TLArg.t) :
  write_bytes_args i (pre ++ post) all
    = (a ← write_bytes_args i pre all;
       b ← write_bytes_args (i + length pre) post all; Ret (a ++ b)).
Proof.
  revert i. induction pre as [|x pre IH]; intros i; simpl.
  - rewrite Nat.add_0_r. by destruct (write_bytes_args i post all).
  - destruct (write_to_bytes x i all None) as [w|]; simpl; [|done].
    rewrite IH. replace (i + S (length pre))%nat with (S i + length pre)%nat
      by lia.
    destruct (write_bytes_args (S i) pre all); simpl; [|done].
    destruct (write_bytes_args _ post all); simpl; [|done].
    by rewrite app_assoc.
Qed.

Lemma filter_filter_andb {A} (f g : A → bool) (l : list A) :
  List.filter g (List.filter f l) = List.filter (fun a => f a && g a) l.
Proof.
  induction l as [|a l IH]; simpl; [done|].
  destruct (f a); simpl; [|done]. destruct (g a); by rewrite IH.
Qed.

Lemma fold_left_lor (ks : list Z) (a : Z) :
  fold_left Z.lor ks a = Z.lor a (foldr Z.lor 0 ks).
Proof.
  revert a. induction ks as [|k ks IH]; intros a; simpl.
  - by rewrite Z.lor_0_r.
  - by rewrite IH, Z.lor_assoc.
Qed.

Lemma foldr_lor_absent {A} (absent : A → bool) (bit : A → Z) (l : list A) :
  foldr Z.lor 0 (map (fun a => if absent a then 0 else bit a) l)
    = foldr Z.lor 0 (map bit (List.filter (fun a => negb (absent a)) l)).
Proof.
  induction l as [|a l IH]; simpl; [done|].
  destruct (absent a); simpl; by rewrite IH.
Qed.

Lemma flag_terms_spec (l : list TLArg.t) (terms : list (ref * Z)) :
  mapM (fun flag => k ← shl1 (TLArg.flag_index flag);
                    Ret (Self (TLArg.name flag), k)) l = Ret terms →
  terms = map (fun f => (Self (TLArg.name f), Z.shiftl 1 (TLArg.flag_index f)))
              l
  ∧ Forall (fun f => 0 ≤ TLArg.flag_index f) l.
Proof.
  intros H. split.
  - eapply mapM_Ret_map; [|exact H]. intros a b _ Ha. unfold shl1 in Ha.
    destruct (TLArg.flag_index a <? 0); [done|]. simpl in Ha. congruence.
  - apply mapM_Ret_Forall in H. eapply Forall_impl; [exact H|].
    intros a [b Ha]. unfold shl1 in Ha.
    destruct (Z.ltb_spec (TLArg.flag_index a) 0); [done | lia].
Qed.

(** What the flags item evaluates to. *)
Lemma eval_flags_item (rt : runtime) (self : store) (args : list TLArg.t)
    (terms : list (ref * Z)) (bs : bytes) :
  terms = map (fun f => (Self (TLArg.name f), Z.shiftl 1 (TLArg.flag_index f)))
              (List.filter TLArg.is_flag args) →
  eval_bexpr rt self ∅ (BFlags terms) = Ret bs →
  pack_unsigned 4 (flags_mask args self) = Ret bs.
Proof.
  intros -> H. cbn [eval_bexpr] in H. bind_inv H.
  rewrite <- H. f_equal.
  apply (mapM_Ret_map _
           (fun fk : ref * Z =>
              match fk.1 with
              | Self n => if is_absent (field self n) then 0 else fk.2
              | Local _ => 0
              end)) in Ha.
  - rewrite Ha, fold_left_lor, Z.lor_0_l, map_map. cbn [fst snd].
    rewrite (foldr_lor_absent
               (fun f => is_absent (field self (TLArg.name f)))
               (fun f => Z.shiftl 1 (TLArg.flag_index f))).
    unfold flags_mask. by rewrite filter_filter_andb.
  - intros [f k] b Hin Hb. change (map ?f ?l) with (f <$> l) in Hin.
    apply list_elem_of_fmap in Hin as (x & [= -> ->] & _).
    cbn [fst snd lookup_ref] in *. unfold field.
    destruct (self !! TLArg.name x); simpl in *; congruence.
Qed.

Lemma flags_mask_no_flags (args : list TLArg.t) (self : store) :
  existsb TLArg.is_flag args = false → flags_mask args self = 0.
Proof.
  intros H. unfold flags_mask.
  assert (List.filter (fun a => TLArg.is_flag a && present self a) args = [])
    as ->; [|done].
  induction args as [|a args IH]; [done|]. simpl in *.
  apply orb_false_iff in H as [-> H]. simpl. by apply IH.
Qed.

Lemma testbit_foldr_lor (ks : list Z) (i : Z) :
  Z.testbit (foldr Z.lor 0 ks) i = existsb (fun k => Z.testbit k i) ks.
Proof.
  induction ks as [|k ks IH]; simpl; [apply Z.testbit_0_l|].
  by rewrite Z.lor_spec, IH.
Qed.

Lemma testbit_shiftl_1 (k i : Z) :
  0 ≤ i → Z.testbit (Z.shiftl 1 k) i = (i =? k).
Proof.
  intros Hi. destruct (Z.le_gt_cases 0 k) as [Hk|Hk].
  - rewrite Z.shiftl_1_l. destruct (Z.eqb_spec i k) as [->|Hne].
    + by apply Z.pow2_bits_true.
    + apply Z.pow2_bits_false. lia.
  - rewrite Z.shiftl_spec by done.
    destruct (Z.eqb_spec i k); [lia|].
    destruct (Z.eq_dec (i - k) 0); [lia|].
    apply Z.bits_above_log2; simpl; lia.
Qed.

(** A bit of the mask is set exactly when some present flag argument carries
    that index. *)
Lemma testbit_flags_mask (args : list TLArg.t) (self : store) (i : Z) :
  0 ≤ i →
  Z.testbit (flags_mask args self) i = true
  ↔ ∃ a, a ∈ args ∧ TLArg.is_flag a = true ∧ TLArg.flag_index a = i
         ∧ present self a = true.
Proof.
  intros Hi. unfold flags_mask.
  rewrite testbit_foldr_lor, existsb_exists. split.
  - intros (k & Hk & Hbit). apply in_map_iff in Hk as (a & <- & Ha).
    apply filter_In in Ha as [Ha Hf]. apply andb_true_iff in Hf as [Hf Hp].
    rewrite testbit_shiftl_1 in Hbit by done. apply Z.eqb_eq in Hbit.
    exists a. by rewrite list_elem_of_In.
  - intros (a & Ha & Hf & <- & Hp).
    exists (Z.shiftl 1 (TLArg.flag_index a)). split.
    + apply (in_map (fun a => Z.shiftl 1 (TLArg.flag_index a))).
      apply filter_In. rewrite Hf, Hp. by rewrite <- list_elem_of_In.
    + rewrite testbit_shiftl_1 by done. apply Z.eqb_refl.
Qed.

Lemma pack_unsigned_Ret (n : nat) (z : Z) (bs : bytes) :
  pack_unsigned n z = Ret bs →
  bs = le_bytes n z ∧ 0 ≤ z < 2 ^ (8 * Z.of_nat n).
Proof.
  unfold pack_unsigned. destruct (Z.leb_spec 0 z); [|done].
  destruct (Z.ltb_spec z (2 ^ (8 * Z.of_nat n))); [|done].
  simpl. intros [= <-]. done.
Qed.

Lemma _write_source_code_bytes_items
    (p : parser) (t : TLObject.t) (c : py_class) :
  _write_source_code p t = Ret c →
  0 ≤ TLObject.id t < 2 ^ 32
  ∧ ∃ items, write_bytes_args 0 (TLObject.args t) (TLObject.args t) = Ret items
             ∧ bytes_items c = BLit (le_bytes 4 (TLObject.id t)) :: items.
Proof.
  unfold _write_source_code. intros H.
  bind_split H as family Hfamily. bind_split H as assigns Hassigns.
  bind_split H as cid Hcid. bind_split H as items Hitems.
  bind_split H as reads Hreads.
  injection H as <-. cbn [bytes_items].
  apply pack_unsigned_Ret in Hcid as [-> Hr]. split; [done|]. eauto.
Qed.

(** The flag indicator is written as the bare flags expression. *)
Lemma write_to_bytes_indicator (ind : TLArg.t) (i : nat)
    (args : list TLArg.t) (w : option (list bexpr)) :
  TLArg.flag_indicator ind = true → TLArg.is_flag ind = false →
  TLArg.is_vector ind = false → TLArg.generic_definition ind = false →
  write_to_bytes ind i args None = Ret w →
  (existsb TLArg.is_flag args = false ∧ w = Some [BLit [x00; x00; x00; x00]])
  ∨ (Forall (fun f => 0 ≤ TLArg.flag_index f) (List.filter TLArg.is_flag args)
     ∧ w = Some [BFlags
                   (map (fun f => (Self (TLArg.name f),
                                   Z.shiftl 1 (TLArg.flag_index f)))
                        (List.filter TLArg.is_flag args))]).
Proof.
  intros Hind Hflag Hvec Hgen H. unfold write_to_bytes in H.
  rewrite Hgen, Hflag, Hvec in H. cbn [andb] in H.
  unfold write_to_bytes_value in H. rewrite Hind in H.
  destruct (existsb TLArg.is_flag args) eqn:Hex; cbn [negb] in H.
  - right. bind_split H as body Hbody. bind_split Hbody as e He.
    bind_split He as terms Hterms.
    injection He as <-. injection Hbody as <-. injection H as <-.
    apply flag_terms_spec in Hterms as [-> Hpos]. done.
  - left. simpl in H. by injection H as <-.
Qed.

(** C6: the generated encoding starts with the 4 bytes of the constructor id
    in little-endian order; and where the definition has its flag indicator,
    it writes, between the bytes of the arguments before and after it, the
    4-byte little-endian unsigned value of the bitwise OR of 1 << flag_index
    over exactly the flag arguments whose value is neither None nor False,
    which is 0 when the definition has no flag arguments. *)
Theorem constructor_id_first_then_flags_mask
    (rt : runtime) (p : parser) (t : TLObject.t) (c : py_class)
    (self : store) (bs : bytes) :
  _write_source_code p t = Ret c →
  py_bytes rt c self = Ret bs →
  (∃ body, bs = le_bytes 4 (TLObject.id t) ++ body)
  ∧ 0 ≤ TLObject.id t < 2 ^ 32
  ∧ ∀ pre ind post,
      TLObject.args t = pre ++ ind :: post →
      TLArg.flag_indicator ind = true → TLArg.is_flag ind = false →
      TLArg.is_vector ind = false → TLArg.generic_definition ind = false →
      let mask := flags_mask (TLObject.args t) self in
      (∃ ipre ipost bpre bpost,
          write_bytes_args 0 pre (TLObject.args t) = Ret ipre
          ∧ write_bytes_args (S (length pre)) post (TLObject.args t) = Ret ipost
          ∧ encode_items rt self ipre = Ret bpre
          ∧ encode_items rt self ipost = Ret bpost
          ∧ bs = le_bytes 4 (TLObject.id t) ++ bpre ++ le_bytes 4 mask ++ bpost)
      ∧ 0 ≤ mask < 2 ^ 32
      ∧ (∀ i, 0 ≤ i →
              Z.testbit mask i = true
              ↔ ∃ a, a ∈ TLObject.args t ∧ TLArg.is_flag a = true
                     ∧ TLArg.flag_index a = i ∧ present self a = true)
      ∧ (existsb TLArg.is_flag (TLObject.args t) = false → mask = 0).
Proof.
  intros Hc Hb.
  destruct (_write_source_code_bytes_items p t c Hc)
    as (Hid & items & Hitems & Hbi).
  unfold py_bytes in Hb. bind_split Hb as us Hus. clear Hus.
  fold (encode_items rt self (bytes_items c)) in Hb.
  rewrite Hbi, encode_items_cons in Hb. cbn [eval_bexpr] in Hb.
  simpl in Hb. bind_split Hb as body Hbody. injection Hb as <-.
  split; [eauto|]. split; [done|].
  intros pre ind post Hargs Hind Hflag Hvec Hgen mask.
  rewrite Hargs in Hitems at 1.
  rewrite write_bytes_args_app in Hitems.
  bind_split Hitems as ipre Hipre. bind_split Hitems as irest Hirest.
  injection Hitems as <-.
  cbn [write_bytes_args] in Hirest.
  bind_split Hirest as w Hw. bind_split Hirest as ipost Hipost.
  injection Hirest as <-.
  rewrite Nat.add_0_l in Hw, Hipost.
  rewrite !encode_items_app in Hbody.
  bind_split Hbody as bpre Hbpre. bind_split Hbody as brest Hbrest.
  injection Hbody as <-.
  bind_split Hbrest as bind Hbind. bind_split Hbrest as bpost Hbpost.
  injection Hbrest as <-.
  assert (bind = le_bytes 4 mask ∧ 0 ≤ mask < 2 ^ 32
          ∧ Forall (fun f => 0 ≤ TLArg.flag_index f)
                   (List.filter TLArg.is_flag (TLObject.args t)))
    as (-> & Hm & Hpos).
  { destruct (write_to_bytes_indicator ind _ _ _ Hind Hflag Hvec Hgen Hw)
      as [[Hno ->] | [Hpos ->]].
    - simpl in Hbind. injection Hbind as <-.
      subst mask. rewrite flags_mask_no_flags by done.
      split; [reflexivity|]. split; [lia|].
      replace (List.filter TLArg.is_flag (TLObject.args t)) with (@nil TLArg.t);
        [constructor|].
      clear -Hno. induction (TLObject.args t) as [|x l IH]; [done|].
      simpl in *. apply orb_false_iff in Hno as [-> Hno]. by apply IH.
    - cbn [default from_option] in Hbind. unfold id in Hbind.
      rewrite encode_items_cons in Hbind.
      bind_split Hbind as bflags Hbflags. simpl in Hbind.
      injection Hbind as <-. rewrite app_nil_r.
      apply (eval_flags_item rt self (TLObject.args t) _ _ eq_refl)
        in Hbflags.
      apply pack_unsigned_Ret in Hbflags as [-> Hr]. done. }
  split; [|split; [done|split]].
  - exists ipre, ipost, bpre, bpost. done.
  - intros i Hi. by apply testbit_flags_mask.
  - apply flags_mask_no_flags.
Qed.

Lemma constructor_id_first_then_flags_mask_witness :
  ∃ c bs,
    _write_source_code plain_parser sample_type = Ret c
    ∧ py_bytes bare_runtime c
        {[ "silent" := PBool true; "ids" := PNone; "n" := PInt 7 ]} = Ret bs
    ∧ bs = [x4d; x3c; x2b; x1a] ++ [] ++ [x01; x00; x00; x00]
           ++ [x07; x00; x00; x00; x00; x00; x00; x00].
Proof.
  assert (∃ c, _write_source_code plain_parser sample_type = Ret c)
    as [c E] by (vm_compute; eauto).
  set (self := ({[ "silent" := PBool true; "ids" := PNone; "n" := PInt 7 ]}
                : store)).
  assert (∃ bs, py_bytes bare_runtime c self = Ret bs) as [bs Eb].
  { injection E as <-. vm_compute. eauto. }
  exists c, bs. split; [exact E|]. split; [exact Eb|].
  destruct (constructor_id_first_then_flags_mask bare_runtime plain_parser
              sample_type c self bs E Eb) as (_ & _ & Hmask).
  destruct (Hmask [] flags_arg
              [flag_arg "silent" "true" 0; flag_vector_arg "ids" "int" 1;
               plain_arg "n" "long"] eq_refl eq_refl eq_refl eq_refl eq_refl)
    as ((ipre & ipost & bpre & bpost & Hpre & Hpost & Hbpre & Hbpost & ->)
        & _).
  vm_compute in Hpre. injection Hpre as <-.
  vm_compute in Hbpre. injection Hbpre as <-.
  vm_compute in Hpost. injection Hpost as <-.
  vm_compute in Hbpost. injection Hbpost as <-.
  vm_compute. reflexivity.
Defined.

(** ** Flag-indexed vectors *)

Lemma write_bytes_args_lookup (i k : nat) (rest all : list TLArg.t)
    (items : list bexpr) (a : TLArg.t) :
  write_bytes_args i rest all = Ret items → rest !! k = Some a →
  ∃ w, write_to_bytes a (i + k) all None = Ret w.
Proof.
  revert i k items. induction rest as [|x rest IH]; intros i k items H Hk;
    [done|].
  cbn [write_bytes_args] in H.
  bind_split H as w Hw. bind_split H as items' Hitems.
  destruct k as [|k]; simpl in Hk.
  - injection Hk as <-. rewrite Nat.add_0_r. eauto.
  - replace (i + S k)%nat with (S i + k)%nat by lia. eauto.
Qed.

Lemma _write_source_code_reads (p : parser) (t : TLObject.t) (c : py_class) :
  _write_source_code p t = Ret c →
  ∃ reads,
    mapM (fun arg => write_read_code p arg (TLObject.args t)
                       ("_" +:+ TLArg.name arg)) (TLObject.args t) = Ret reads
    ∧ from_reader_body c = concat reads.
Proof.
  unfold _write_source_code. intros H.
  bind_split H as family Hfamily. bind_split H as assigns Hassigns.
  bind_split H as cid Hcid. bind_split H as items Hitems.
  bind_split H as reads Hreads.
  injection H as <-. eauto.
Qed.

Lemma shl1_Ret (i k : Z) : shl1 i = Ret k → 0 ≤ i ∧ k = Z.shiftl 1 i.
Proof.
  unfold shl1. destruct (Z.ltb_spec i 0); [done|]. intros [= <-]. done.
Qed.

(** A flag argument that is read behind its bit has a usable index. *)
Lemma write_read_code_flag_index (p : parser) (a : TLArg.t)
    (args : list TLArg.t) (name : string) (body : list stmt) :
  TLArg.is_flag a = true → TLArg.generic_definition a = false →
  write_read_code p a args name = Ret body → 0 ≤ TLArg.flag_index a.
Proof.
  intros Hf Hg H. unfold write_read_code in H. rewrite Hg, Hf in H.
  cbn [andb] in H.
  destruct (TLArg.type a =? "true")%string;
    bind_split H as k Hk; by apply shl1_Ret in Hk as [? _].
Qed.

Lemma pack_signed_length (n : nat) (v : pyval) (bs : bytes) :
  pack_signed n v = Ret bs → length bs = n.
Proof.
  unfold pack_signed. destruct (as_int v); [|done].
  destruct (_ && _); [|done]. intros [= <-]. apply length_le_bytes.
Qed.

(** The item written for a flag-indexed vector. *)
Lemma write_to_bytes_flag_vector (a : TLArg.t) (i : nat)
    (args : list TLArg.t) (w : option (list bexpr)) :
  TLArg.is_flag a = true → TLArg.is_vector a = true →
  TLArg.generic_definition a = false → TLArg.type a ≠ "true" →
  write_to_bytes a i args None = Ret w →
  ∃ elem,
    w = Some [BIfPresent (Self (TLArg.name a))
                (BJoin ((if TLArg.use_vector_id a
                         then [BLit vector_tag] else [])
                        ++ [BPackLen (Self (TLArg.name a));
                            BJoinFor elem (Self (TLArg.name a))]))].
Proof.
  intros Hf Hv Hg Ht H. unfold write_to_bytes in H.
  rewrite Hg, Hf, Hv in H. cbn [andb default from_option] in H.
  destruct (String.eqb_spec (TLArg.type a) "true"); [done|].
  bind_split H as body Hbody. bind_split Hbody as elem Helem.
  injection Hbody as <-. injection H as <-. unfold id. eauto.
Qed.

(** ** The round trip *)

(** C1, as stated, fails.  An instance built by the generated constructor
    with every optional field left out holds None in its [true] flag; the
    bytes of its encoding start with the constructor id, which from_reader
    does not expect, and even after those four bytes are taken off (as the
    dispatching reader does) the flag comes back as False, not None. *)
Lemma absent_true_flag_is_decoded_as_False :
  ∃ c self bs whole rest self',
    _write_source_code plain_parser sample_type = Ret c
    ∧ py_init bare_runtime c [("n", PInt 7)] (fun _ => x00)
      = Ret (self, fun _ => x00)
    ∧ self !! "silent" = Some PNone
    ∧ self !! "n" = Some (PInt 7)
    ∧ py_bytes bare_runtime c self = Ret bs
    ∧ py_from_reader bare_runtime c bs (fun _ => x00)
      = Ret (whole, rest, fun _ => x00)
    ∧ whole !! "n" = Some (PInt 30064771072)
    ∧ py_from_reader bare_runtime c (drop 4 bs) (fun _ => x00)
      = Ret (self', [], fun _ => x00)
    ∧ self' !! "silent" = Some (PBool false).
Proof.
  do 6 eexists.
  split; [vm_compute; reflexivity|].
  split; [vm_compute; reflexivity|].
  split; [vm_compute; reflexivity|].
  split; [vm_compute; reflexivity|].
  split; [vm_compute; reflexivity|].
  split; [vm_compute; reflexivity|].
  split; [vm_compute; reflexivity|].
  split; vm_compute; reflexivity.
Qed.
